(** * Post-tensioned slab optimiser: a shallow embedding of
      [pt_slab_optimization_commented.py] and the properties of its core.

    The script is a straight-line batch computation over module-level
    constants.  Every assigned variable of the script becomes a definition
    of the same name; the values a later stage reads become arguments, so
    that the stages can be stated for arbitrary influence matrices and
    targets and then instantiated at the constants of the script.

    Number model.  Python [int] is [Z].  Python [float] and NumPy [float64]
    are read as real numbers ([R]): [+ - * /], [**], [math.sqrt], [np.exp]
    and [abs] are the exact operations, [int(.)] is truncation towards
    zero and [np.ceil(.).astype(int)] is the integer ceiling.  Rounding
    error, overflow and NaN of binary64 are outside this model.  Where a
    discrete result depends on them the code is modelled a second time:
    the grid dimensions, which depend on a truncation, with rounded
    arithmetic (module [Rounded], round-to-nearest of binary64 as a
    function on the reals) and on the machine's floats (module
    [Float64]); the cast to int64 of line 173 as [astype_int64].  Arrays
    are lists; the statements about them assume the shapes the script
    builds: a non-empty two-dimensional influence matrix and vectors of
    matching length, with no operand left to broadcast. *)

From Stdlib Require Import Floats Uint63.
From Stdlib Require Import Reals Lra Lia ZArith List String.
Import ListNotations.
Open Scope R_scope.

(** ** Exceptions, events and the monad of the script *)

(** The exceptions the script can raise: the two [raise] statements, the
    arithmetic errors of the grid computation and NumPy's shape errors
    (each of the latter is a [ValueError] as well). *)
Inductive exn : Type :=
| ZeroDivisionError (msg : string)
| RuntimeError (msg : string)
| ValueError (msg : string).

Inductive result (T : Type) : Type :=
| Ok (v : T)
| Raise (e : exn).
Arguments Ok {T} v.
Arguments Raise {T} e.

(** The linear program handed to cvxpy (script lines 156--164): a variable
    of [lp_dim] components, the objective [Minimize(sum(n))] and the
    constraints [A @ (n * s) >= rhs], [n >= 0], [n <= ub]. *)
Record lp_problem : Type := mk_lp {
  lp_dim : nat;
  lp_A : list (list R);
  lp_s : R;
  lp_rhs : list R;
  lp_ub : Z
}.

(** What the script reads back after [problem.solve]: [problem.status] and
    [n.value]. *)
Record solver_outcome : Type := mk_outcome {
  status : string;
  value : list R
}.

(** The lines the script prints.  A line whose text formats a number
    carries the number. *)
Inductive line : Type :=
| SigmaMaxLine (sigma_max : R)
| EccMaxLine (e_max : R)
| EccDesignLine (e_design : R)
| GridLine (total Nx Ny : Z)
| PrecheckHeader
| PrecheckSatisfied
| PrecheckViolated (n_violations : nat)
| PrecheckInsufficient
| PrecheckAdvice
| Solving
| Done
| RoundingWarning (n_violations : nat)
| RoundingSatisfied
| MassHeader
| MassFull (strands : Z) (mass : R)
| MassOptimized (strands : Z) (mass : R)
| SteelReduction (percent : R).

(** Observable effects, in program order: printed lines, the call of the
    external LP solver, and the two figures shown at the end (with the
    arrays they draw). *)
Inductive event : Type :=
| Print (l : line)
| SolverCall (p : lp_problem)
| ShowLayout (tendon_x_positions : list R) (x_opt : list Z)
| ShowStress (load_vector induced_stress final_stress : list R).

(** A computation of the script: the events it emitted and either its
    value or the exception that stopped it. *)
Definition Run (T : Type) : Type := (list event * result T)%type.

Definition ret {T : Type} (v : T) : Run T := ([], Ok v).

Definition raise {T : Type} (e : exn) : Run T := ([], Raise e).

Definition print (l : line) : Run unit := ([Print l], Ok tt).

Definition emit (e : event) : Run unit := ([e], Ok tt).

Definition bind {T U : Type} (m : Run T) (k : T -> Run U) : Run U :=
  match m with
  | (tr, Ok v) => let (tr', r) := k v in (tr ++ tr', r)
  | (tr, Raise e) => (tr, Raise e)
  end.

Notation "x <- m ;; k" := (bind m (fun x => k))
  (at level 61, m at next level, right associativity).
Notation "m ;;; k" := (bind m (fun _ => k))
  (at level 61, right associativity).

Definition trace {T : Type} (m : Run T) : list event := fst m.
Definition outcome {T : Type} (m : Run T) : result T := snd m.

(** ** Python and NumPy primitives *)

(** [int(x)] on a float: truncation towards zero. *)
Definition py_int (x : R) : Z :=
  if Rle_dec 0 x then Zfloor x else Zceil x.

(** [a / b] on Python numbers: a zero divisor raises. *)
Definition py_div (a b : R) : Run R :=
  if Req_dec_T b 0 then raise (ZeroDivisionError "division by zero")
  else ret (a / b).

(** [math.sqrt(x)]: a negative argument is a domain error. *)
Definition math_sqrt (x : R) : Run R :=
  if Rlt_dec x 0 then raise (ValueError "math domain error")
  else ret (sqrt x).

(** [n % 2 == 0] on a Python int (the sign of [%] follows the divisor, as
    [Z.modulo] does). *)
Definition is_even (n : Z) : bool := (n mod 2 =? 0)%Z.

(** [np.linspace(start, stop, num)]: [num] samples, [start + i * step] with
    [step = (stop - start) / (num - 1)]. *)
Definition np_linspace (start stop : R) (num : Z) : list R :=
  map (fun i => start + INR i * ((stop - start) / (IZR num - 1)))
      (seq 0 (Z.to_nat num)).

(** [np.arange(start, stop, step)]: [ceil((stop - start) / step)] samples
    [start + i * step]. *)
Definition np_arange (start stop step : R) : list R :=
  map (fun i => start + INR i * step)
      (seq 0 (Z.to_nat (Zceil ((stop - start) / step)))).

(** [np.full(n, v)] *)
Definition np_full (n : nat) (v : Z) : list Z := repeat v n.

(** [x * s] for an integer array [x] and a float [s]. *)
Definition scale_int (x : list Z) (s : R) : list R :=
  map (fun k => IZR k * s) x.

(** [n * s] for a float array [n] and a float [s]. *)
Definition scale (n : list R) (s : R) : list R :=
  map (fun v => v * s) n.

(** The inner product of a matrix row with a vector of the same length. *)
Definition dot (row v : list R) : R :=
  fold_right Rplus 0 (map (fun p => fst p * snd p) (combine row v)).

(** [A @ v] for a two-dimensional [A] and a one-dimensional [v]: the
    number of columns must be the length of [v]. *)
Definition matmul (A : list (list R)) (v : list R) : Run (list R) :=
  if forallb (fun row => Nat.eqb (List.length row) (List.length v)) A
  then ret (map (fun row => dot row v) A)
  else raise (ValueError "matmul: dimension mismatch").

Definition same_length {T U : Type} (u : list T) (v : list U) : bool :=
  Nat.eqb (List.length u) (List.length v).

Definition differences (u v : list R) : list R :=
  map (fun p => fst p - snd p) (combine u v).

Definition less_flags (u v : list R) : list bool :=
  map (fun p => if Rlt_dec (fst p) (snd p) then true else false) (combine u v).

(** [u - v], elementwise on arrays of one shape.  (NumPy also accepts a
    length-1 operand and broadcasts it; the script never has one.) *)
Definition np_sub (u v : list R) : Run (list R) :=
  if same_length u v then ret (differences u v)
  else raise (ValueError "operands could not be broadcast together").

(** [u < v], elementwise on arrays of one shape, as [np_sub]. *)
Definition np_less (u v : list R) : Run (list bool) :=
  if same_length u v then ret (less_flags u v)
  else raise (ValueError "operands could not be broadcast together").

(** Every row of [A] has [k] entries. *)
Definition rows_have_length (A : list (list R)) (k : nat) : Prop :=
  Forall (fun row => List.length row = k) A.

(** [np.sum] of a boolean array: the number of [True]. *)
Definition np_sum_bool (l : list bool) : nat := List.length (filter (fun b => b) l).

(** [np.sum] of an integer array: the exact sum, which is NumPy's int64
    sum as long as that does not wrap. *)
Definition np_sum_int (l : list Z) : Z := fold_right Z.add 0%Z l.

(** [np.ceil(v).astype(int)] for ceilings that fit in an int64; the cast
    itself is [np_ceil_astype_int] below. *)
Definition np_ceil_int (v : list R) : list Z := map Zceil v.

(** [cp.OPTIMAL] *)
Definition OPTIMAL : string := "optimal".

(** ** Control point generation (script lines 84--98) *)

Module Grid.

(** [Ny = int(math.sqrt(Npc / aspect_ratio)); if Ny % 2 == 0: Ny += 1] *)
Definition Ny (Npc : Z) (aspect_ratio : R) : Run Z :=
  q <- py_div (IZR Npc) aspect_ratio ;;
  s <- math_sqrt q ;;
  let Ny := py_int s in
  ret (if is_even Ny then (Ny + 1)%Z else Ny).

(** [Nx = int(Npc / Ny); if Nx % 2 == 0: Nx += 1] *)
Definition Nx (Npc Ny : Z) : Run Z :=
  q <- py_div (IZR Npc) (IZR Ny) ;;
  let Nx := py_int q in
  ret (if is_even Nx then (Nx + 1)%Z else Nx).

(** Both dimensions, in the order the script computes them. *)
Definition dims (Npc : Z) (aspect_ratio : R) : Run (Z * Z) :=
  ny <- Ny Npc aspect_ratio ;;
  nx <- Nx Npc ny ;;
  ret (nx, ny).

(** [x_control], [y_control] and
    [control_points = [(x, y) for x in x_control for y in y_control]]. *)
Definition x_control (Lx : R) (Nx : Z) : list R := np_linspace 0.5 (Lx - 0.5) Nx.
Definition y_control (Ly : R) (Ny : Z) : list R := np_linspace 0.5 (Ly - 0.5) Ny.
Definition control_points (Lx Ly : R) (Nx Ny : Z) : list (R * R) :=
  list_prod (x_control Lx Nx) (y_control Ly Ny).

End Grid.

(** ** The grid dimensions in binary64

    The same computation on IEEE 754 binary64 numbers, as CPython runs it;
    [None] stands for a raised exception. *)

Module Float64.

(** [int(x)] on a float: truncation towards zero; NaN and the infinities
    raise. *)
Definition float_to_int (x : float) : option Z :=
  match Prim2SF x with
  | S754_zero _ => Some 0%Z
  | S754_finite s m e =>
      let a := if (0 <=? e)%Z then (Z.pos m * 2 ^ e)%Z else (Z.pos m / 2 ^ (- e))%Z in
      Some (if s then (- a)%Z else a)
  | S754_infinity _ => None
  | S754_nan => None
  end.

(** The float of an int below [2 ^ 63], which is exact below [2 ^ 53]. *)
Definition int_to_float (z : Z) : float := PrimFloat.of_uint63 (Uint63.of_Z z).

(** [a / b]: a zero divisor raises. *)
Definition div (a b : float) : option float :=
  if PrimFloat.eqb b PrimFloat.zero then None else Some (PrimFloat.div a b).

(** [math.sqrt(x)]: a negative argument raises. *)
Definition math_sqrt (x : float) : option float :=
  if PrimFloat.ltb x PrimFloat.zero then None else Some (PrimFloat.sqrt x).

Definition Ny (Npc : Z) (aspect_ratio : float) : option Z :=
  match div (int_to_float Npc) aspect_ratio with
  | Some q =>
      match math_sqrt q with
      | Some s =>
          match float_to_int s with
          | Some Ny => Some (if is_even Ny then (Ny + 1)%Z else Ny)
          | None => None
          end
      | None => None
      end
  | None => None
  end.

Definition Nx (Npc Ny : Z) : option Z :=
  match div (int_to_float Npc) (int_to_float Ny) with
  | Some q =>
      match float_to_int q with
      | Some Nx => Some (if is_even Nx then (Nx + 1)%Z else Nx)
      | None => None
      end
  | None => None
  end.

Definition dims (Npc : Z) (aspect_ratio : float) : option (Z * Z) :=
  match Ny Npc aspect_ratio with
  | Some ny =>
      match Nx Npc ny with
      | Some nx => Some (nx, ny)
      | None => None
      end
  | None => None
  end.

(** [Lx, Ly = 8.0, 12.0] and [aspect_ratio = Lx / Ly]. *)
Definition Lx : float := 8.0%float.
Definition Ly : float := 12.0%float.
Definition aspect_ratio : float := PrimFloat.div Lx Ly.

End Float64.

(** ** Precheck, optimisation, rounding (script lines 134--183)

    The stages read the influence matrix, the target vector, the tendon
    positions (for their number only), the strand cap and the stress per
    strand; the external solver is the function [solve]. *)

Record outputs : Type := mk_outputs {
  x_opt : list Z;
  induced_stress : list R;
  final_stress : list R;
  n_violations : nat
}.

(** The text of the two [raise] statements (lines 148 and 170). *)
Definition infeasible_at_full_capacity : string :=
  "🚫 Optimization aborted: constraints cannot be met even with all tendons fully activated.".

Definition optimization_failed (status : string) : string :=
  String.append "❌ Optimization failed. Status: " status.

Section Core.

Variable solve : lp_problem -> solver_outcome.
Variable A : list (list R).
Variable load_vector : list R.
Variable tendon_x_positions : list R.
Variable n_cord_max : Z.
Variable stress_per_tendon : R.

(** Lines 134--139: induced stress with every tendon at the cap, and the
    number of control points below target. *)
Definition induced_stress_full : Run (list R) :=
  let x_all_active := np_full (List.length tendon_x_positions) n_cord_max in
  matmul A (scale_int x_all_active stress_per_tendon).

Definition precheck_violations : Run nat :=
  induced_stress_full <- induced_stress_full ;;
  combined_stress_full <- np_sub load_vector induced_stress_full ;;
  violations <- np_less induced_stress_full load_vector ;;
  ret (np_sum_bool violations).

(** Lines 141--148. *)
Definition precheck : Run unit :=
  n_violations <- precheck_violations ;;
  print PrecheckHeader ;;;
  if Nat.eqb n_violations 0 then
    print PrecheckSatisfied
  else
    print (PrecheckViolated n_violations) ;;;
    print PrecheckInsufficient ;;;
    print PrecheckAdvice ;;;
    raise (RuntimeError infeasible_at_full_capacity).

(** Lines 156--164: the problem as formulated. *)
Definition problem : lp_problem :=
  mk_lp (List.length tendon_x_positions) A stress_per_tendon load_vector n_cord_max.

(** Lines 165--170: the solver is called once; any status other than
    [cp.OPTIMAL] raises. *)
Definition optimize : Run (list R) :=
  print Solving ;;;
  emit (SolverCall problem) ;;;
  let result := solve problem in
  print Done ;;;
  if String.eqb (status result) OPTIMAL then
    ret (value result)
  else
    raise (ValueError (optimization_failed (status result))).

(** Lines 172--183: ceiling, recomputed stresses, and the final count of
    violations, which is printed and never raised. *)
Definition round_and_verify (n_value : list R) : Run outputs :=
  let x_opt := np_ceil_int n_value in
  induced_stress <- matmul A (scale_int x_opt stress_per_tendon) ;;
  final_stress <- np_sub load_vector induced_stress ;;
  violations <- np_less induced_stress load_vector ;;
  let n_violations := np_sum_bool violations in
  (if Nat.ltb 0 n_violations then print (RoundingWarning n_violations)
   else print RoundingSatisfied) ;;;
  ret (mk_outputs x_opt induced_stress final_stress n_violations).

Definition core : Run outputs :=
  precheck ;;;
  n_value <- optimize ;;
  round_and_verify n_value.

End Core.

(** ** The linear program as a problem over the reals *)

(** [A @ v >= rhs] holds: the product is defined and dominates [rhs]
    componentwise. *)
Definition stress_constraint (A : list (list R)) (v rhs : list R) : Prop :=
  exists u, outcome (matmul A v) = Ok u /\ Forall2 Rge u rhs.

Definition within_bounds (ub : Z) (n : list R) : Prop :=
  Forall (fun v => 0 <= v <= IZR ub) n.

Definition feasible (p : lp_problem) (n : list R) : Prop :=
  List.length n = lp_dim p /\
  stress_constraint (lp_A p) (scale n (lp_s p)) (lp_rhs p) /\
  within_bounds (lp_ub p) n.

Definition objective (n : list R) : R := fold_right Rplus 0 n.

Definition optimal (p : lp_problem) (n : list R) : Prop :=
  feasible p n /\ forall m, feasible p m -> objective n <= objective m.

(** The optimal value of the program: the greatest lower bound of the
    objective over the feasible region. *)
Definition optimal_value (p : lp_problem) (v : R) : Prop :=
  (forall n, feasible p n -> v <= objective n) /\
  (forall b, (forall n, feasible p n -> b <= objective n) -> b <= v).

(** ** The script: its constants and its run *)

Module Script.

(** *** Geometry and load parameters (lines 11--34) *)
Definition Lx : R := 8.0.
Definition Ly : R := 12.0.
Definition t_slab : R := 0.40.

Definition gamma_concrete : R := 25.
Definition q_dead : R := gamma_concrete * t_slab.
Definition q_live : R := 5.0.
Definition q_total : R := q_dead + q_live.

Definition L : R := Ly.
Definition w : R := q_total.
Definition M : R := w * L ^ 2 / 8.

Definition b : R := 1.0.
Definition I : R := (b * t_slab ^ 3) / 12.
Definition y : R := t_slab / 2.

Definition M_Nmm : R := M * 1e6.
Definition I_mm4 : R := I * 1e12.
Definition y_mm : R := y * 1e3.
Definition sigma_max : R := (M_Nmm * y_mm) / I_mm4.

(** *** Tendon parameters (lines 43--55) *)
Definition tendon_spacing : R := 1.0.
Definition tendon_x_positions : list R :=
  np_arange 0.5 (Lx - 0.5 + 1e-6) tendon_spacing.

Definition cord_area : R := 150.
Definition n_cord_max : Z := 10.
Definition sigma_u : R := 1860.
Definition prestress_ratio : R := 0.7.
Definition Ptendon : R := cord_area * sigma_u * prestress_ratio / 1e3.

Definition area_influence : R := t_slab * 1.0.
Definition stress_per_tendon : R := (Ptendon / area_influence) / 1000.

(** *** Eccentricity profile (lines 63--73) *)
Definition cover : R := 0.05.
Definition ecc_factor : R := 1.0.
Definition e_max : R := t_slab / 2 - cover.
Definition e_design : R := ecc_factor * e_max.

Definition tendon_profile (y Ly e0 : R) : R :=
  4 * e0 * (y / Ly) * (1 - y / Ly).

(** *** Control points (lines 81--98) *)
Definition Npc : Z := 10000.
Definition aspect_ratio : R := Lx / Ly.

(** *** Influence matrix (lines 107--117); [sigma] defaults to 0.75.  The
    matrix has one row per control point, of which there is at least
    one. *)
Definition tendon_influence_with_eccentricity (xc x_cp y_cp sigma : R) : R :=
  let dx := Rabs (x_cp - xc) in
  let infl_base := exp (- (dx ^ 2) / (2 * sigma ^ 2)) in
  let ecc := tendon_profile y_cp Ly e_design in
  infl_base * (1 + ecc / (t_slab / 2)).

Definition sigma_default : R := 0.75.

Definition influence_matrix (control_points : list (R * R)) : list (list R) :=
  map (fun cp =>
         map (fun x_t => tendon_influence_with_eccentricity x_t (fst cp) (snd cp) sigma_default)
             tendon_x_positions)
      control_points.

(** *** Target stresses (lines 125--127); [b] is rebound there. *)
Definition yc : R := Ly / 2.
Definition b' : R := Ly / 2.
Definition sigma_target (y_cp : R) : R :=
  sigma_max * (1 - ((y_cp - yc) ^ 2 / b' ^ 2)).
Definition sigma_targets (control_points : list (R * R)) : list R :=
  map (fun cp => sigma_target (snd cp)) control_points.

(** *** Mass comparison and figures (lines 191--252)

    The figures are drawn from non-empty arrays with one entry per control
    point (the colour range of line 227 takes their minima and maxima);
    [report] stands for these lines on such arrays. *)
Definition tendon_length : R := Ly.
Definition steel_density : R := 7850.
Definition strand_area_m2 : R := cord_area * 1e-6.
Definition mass_per_strand_kg : R := strand_area_m2 * tendon_length * steel_density.

Definition report (load_vector : list R) (o : outputs) : Run unit :=
  let total_strands_full := (Z.of_nat (List.length tendon_x_positions) * n_cord_max)%Z in
  let mass_full := IZR total_strands_full * mass_per_strand_kg in
  let total_strands_opt := np_sum_int (x_opt o) in
  let mass_opt := IZR total_strands_opt * mass_per_strand_kg in
  print MassHeader ;;;
  print (MassFull total_strands_full mass_full) ;;;
  print (MassOptimized total_strands_opt mass_opt) ;;;
  print (SteelReduction ((1 - mass_opt / mass_full) * 100)) ;;;
  emit (ShowLayout tendon_x_positions (x_opt o)) ;;;
  emit (ShowStress load_vector (induced_stress o) (final_stress o)).

(** *** The whole run, top to bottom *)
Definition main (solve : lp_problem -> solver_outcome) : Run outputs :=
  print (SigmaMaxLine sigma_max) ;;;
  print (EccMaxLine e_max) ;;;
  print (EccDesignLine e_design) ;;;
  Ny <- Grid.Ny Npc aspect_ratio ;;
  Nx <- Grid.Nx Npc Ny ;;
  print (GridLine (Nx * Ny) Nx Ny) ;;;
  let control_points := Grid.control_points Lx Ly Nx Ny in
  let A := influence_matrix control_points in
  let load_vector := sigma_targets control_points in
  o <- core solve A load_vector tendon_x_positions n_cord_max stress_per_tendon ;;
  report load_vector o ;;;
  ret o.

End Script.

(** ** The influence model in the words of the specification

    [kernel], [profile] and their combination as section 4.2 of the
    specification writes them, for comparison with the functions above. *)

Module Spec.

Definition kernel (sigma dx : R) : R := exp (- dx ^ 2 / (2 * sigma ^ 2)).

Definition profile (e_design Ly y : R) : R :=
  4 * e_design * (y / Ly) * (1 - y / Ly).

Definition influence (sigma e_design Ly t_slab xc x y : R) : R :=
  kernel sigma (Rabs (x - xc)) * (1 + profile e_design Ly y / (t_slab / 2)).

End Spec.

(** ** The int64 cast of line 173

    [np.ceil(n.value).astype(int)] stores the ceiling in a 64-bit signed
    integer.  Inside the int64 range the cast is the identity; outside it
    NumPy on x86-64 stores [INT64_MIN].  [np_ceil_int] above is the
    ceiling without the cast; the two agree on values in range (lemma
    [ceil_cast_exact]). *)

Definition INT64_MIN : Z := (- 2 ^ 63)%Z.
Definition INT64_MAX : Z := (2 ^ 63 - 1)%Z.

Definition astype_int64 (z : Z) : Z :=
  if andb (INT64_MIN <=? z)%Z (z <=? INT64_MAX)%Z then z else INT64_MIN.

Definition np_ceil_astype_int (v : list R) : list Z :=
  map (fun x => astype_int64 (Zceil x)) v.

(** A float whose ceiling fits in an int64. *)
Definition fits_int64 (x : R) : Prop := IZR INT64_MIN - 1 < x <= IZR INT64_MAX.

(** ** The grid generator with rounded arithmetic

    Lines 84--89 again, with every float operation followed by a rounding
    [rnd]: [Npc / aspect_ratio], [math.sqrt] and the true division
    [Npc / Ny] each return the rounded exact result.  With [rnd] the
    identity this is module [Grid]; with [rnd] the round-to-nearest of
    binary64 it is what CPython computes, as long as nothing overflows. *)

Module Rounded.

Definition div (rnd : R -> R) (a b : R) : Run R :=
  if Req_dec_T b 0 then raise (ZeroDivisionError "division by zero")
  else ret (rnd (a / b)).

Definition math_sqrt (rnd : R -> R) (x : R) : Run R :=
  if Rlt_dec x 0 then raise (ValueError "math domain error")
  else ret (rnd (sqrt x)).

Definition Ny (rnd : R -> R) (Npc : Z) (aspect_ratio : R) : Run Z :=
  q <- div rnd (IZR Npc) aspect_ratio ;;
  s <- math_sqrt rnd q ;;
  let Ny := py_int s in
  ret (if is_even Ny then (Ny + 1)%Z else Ny).

Definition Nx (rnd : R -> R) (Npc Ny : Z) : Run Z :=
  q <- div rnd (IZR Npc) (IZR Ny) ;;
  let Nx := py_int q in
  ret (if is_even Nx then (Nx + 1)%Z else Nx).

Definition dims (rnd : R -> R) (Npc : Z) (aspect_ratio : R) : Run (Z * Z) :=
  ny <- Ny rnd Npc aspect_ratio ;;
  nx <- Nx rnd Npc ny ;;
  ret (nx, ny).

(** Round to nearest, ties to even, on the reals. *)
Definition nearest_even (t : R) : Z :=
  let f := Zfloor t in
  match total_order_T (t - IZR f) (1 / 2) with
  | inleft (left _) => f
  | inleft (right _) => if Z.even f then f else (f + 1)%Z
  | inright _ => (f + 1)%Z
  end.

(** The exponent of the binade of a positive real, not below the least
    normal exponent of binary64, and the spacing of the floats there (53
    significant bits; below [2 ^ -1022] the subnormal spacing
    [2 ^ -1074]). *)
Definition binade (x : R) : Z := Z.max (-1022) (Zfloor (ln x / ln 2)).

Definition ulp (x : R) : R := powerRZ 2 (binade x - 52).

(** The value of the binary64 float nearest to [x], ties to even: IEEE 754
    round-to-nearest, which CPython's float division and [math.sqrt]
    apply to the exact result.  It stands for the float as long as the
    result is finite, that is for [x] below the overflow threshold
    [2 ^ 1024 - 2 ^ 970] in absolute value. *)
Definition binary64 (x : R) : R :=
  if Rlt_dec 0 x then IZR (nearest_even (x / ulp x)) * ulp x
  else if Rlt_dec x 0 then - (IZR (nearest_even (- x / ulp (- x))) * ulp (- x))
  else 0.

(** What the proofs use of a rounding: on the non-negative reals it is
    monotone, it leaves the integers up to [2 ^ 53] alone, and between
    [2 ^ -30] and [2 ^ 53] its relative error is at most [2 ^ -53].
    [binary64] has all three properties (lemma [binary64_standard]); so
    has exact arithmetic. *)
Record standard (rnd : R -> R) : Prop := {
  rnd_mono : forall x y : R, 0 <= x -> x <= y -> rnd x <= rnd y;
  rnd_int : forall k : Z, (0 <= k <= 2 ^ 53)%Z -> rnd (IZR k) = IZR k;
  rnd_rel : forall x : R,
      / IZR (2 ^ 30) <= x <= IZR (2 ^ 53) -> Rabs (rnd x - x) <= x / IZR (2 ^ 53)
}.

End Rounded.

(** ** The arrays of the script's run

    The script computes an 81 x 123 grid (lemma [script_dims] below); these
    are its control points, influence matrix, target vector and linear
    program at those dimensions. *)

Definition script_control_points : list (R * R) :=
  Grid.control_points Script.Lx Script.Ly 81 123.

(** [X] and [Y] of lines 97--98, the coordinates the stress figures are
    drawn against. *)
Definition script_X : list R := map fst script_control_points.
Definition script_Y : list R := map snd script_control_points.

Definition script_A : list (list R) :=
  Script.influence_matrix script_control_points.

Definition script_load_vector : list R :=
  Script.sigma_targets script_control_points.

Definition script_problem : lp_problem :=
  problem script_A script_load_vector Script.tendon_x_positions
          Script.n_cord_max Script.stress_per_tendon.

Definition script_core (solve : lp_problem -> solver_outcome) : Run outputs :=
  core solve script_A script_load_vector Script.tendon_x_positions
       Script.n_cord_max Script.stress_per_tendon.

(** The lines printed before the precheck. *)
Definition script_preamble : list event :=
  [Print (SigmaMaxLine Script.sigma_max); Print (EccMaxLine Script.e_max);
   Print (EccDesignLine Script.e_design); Print (GridLine (81 * 123) 81 123)].

(** * Properties *)

(** ** The monad *)

Lemma bind_ret_l {T U : Type} (v : T) (k : T -> Run U) : bind (ret v) k = k v.
Proof.
  unfold bind, ret. destruct (k v) as [tr r]. reflexivity.
Qed.

Lemma bind_raise_l {T U : Type} (e : exn) (k : T -> Run U) : bind (raise e) k = raise e.
Proof. reflexivity. Qed.

Lemma bind_ok {T U : Type} (tr : list event) (v : T) (k : T -> Run U) :
  bind (tr, Ok v) k = (tr ++ trace (k v), outcome (k v)).
Proof.
  unfold bind, trace, outcome. destruct (k v) as [tr' r]. reflexivity.
Qed.

Lemma outcome_bind_ok {T U : Type} (m : Run T) (v : T) (k : T -> Run U) :
  outcome m = Ok v -> outcome (bind m k) = outcome (k v).
Proof.
  destruct m as [tr r]. unfold outcome. simpl. intros ->.
  destruct (k v) as [tr' r']. reflexivity.
Qed.

Lemma outcome_bind_raise {T U : Type} (m : Run T) (e : exn) (k : T -> Run U) :
  outcome m = Raise e -> outcome (bind m k) = Raise e.
Proof.
  destruct m as [tr r]. unfold outcome. simpl. intros ->. reflexivity.
Qed.

Lemma trace_bind_ok {T U : Type} (m : Run T) (v : T) (k : T -> Run U) :
  outcome m = Ok v -> trace (bind m k) = trace m ++ trace (k v).
Proof.
  destruct m as [tr r]. unfold outcome, trace. simpl. intros ->.
  destruct (k v) as [tr' r']. reflexivity.
Qed.

Lemma trace_bind_raise {T U : Type} (m : Run T) (e : exn) (k : T -> Run U) :
  outcome m = Raise e -> trace (bind m k) = trace m.
Proof.
  destruct m as [tr r]. unfold outcome, trace. simpl. intros ->. reflexivity.
Qed.

(** ** Truncation, parity and the float quotient of two ints *)

Lemma py_int_nonneg (x : R) : 0 <= x -> py_int x = Zfloor x.
Proof.
  intros Hx. unfold py_int.
  destruct (Rle_dec 0 x) as [_ | Hn]; [reflexivity | contradiction].
Qed.

Lemma py_int_of_bounds (z : Z) (x : R) :
  (0 <= z)%Z -> IZR z <= x < IZR z + 1 -> py_int x = z.
Proof.
  intros Hz Hb. rewrite py_int_nonneg.
  - now apply Zfloor_eq.
  - apply Rle_trans with (IZR z); [now apply IZR_le | tauto].
Qed.

Lemma py_int_quot (a d : Z) :
  (0 <= a)%Z -> (0 < d)%Z -> py_int (IZR a / IZR d) = (a / d)%Z.
Proof.
  intros Ha Hd.
  assert (HdR : 0 < IZR d) by now apply IZR_lt.
  apply py_int_of_bounds.
  - apply Z.div_pos; lia.
  - pose proof (Z.mul_div_le a d Hd) as Hlo.
    pose proof (Z.mul_succ_div_gt a d Hd) as Hhi.
    apply IZR_le in Hlo. apply IZR_lt in Hhi.
    rewrite mult_IZR in Hlo. rewrite mult_IZR, succ_IZR in Hhi.
    split.
    + apply Rmult_le_reg_r with (IZR d); [exact HdR |].
      unfold Rdiv. rewrite Rmult_assoc, Rinv_l by lra. lra.
    + apply Rmult_lt_reg_r with (IZR d); [exact HdR |].
      unfold Rdiv. rewrite Rmult_assoc, Rinv_l by lra. lra.
Qed.

Lemma force_odd_is_odd (n : Z) :
  Z.odd (if is_even n then (n + 1)%Z else n) = true.
Proof.
  unfold is_even. pose proof (Z.div_mod n 2) as Hdm.
  pose proof (Z.mod_pos_bound n 2) as Hb.
  destruct (Z.eqb_spec (n mod 2) 0) as [He | Ho];
    apply Z.odd_spec; exists (n / 2)%Z; lia.
Qed.

Lemma force_odd_bounds (n : Z) :
  (n <= (if is_even n then n + 1 else n) <= n + 1)%Z.
Proof. destruct (is_even n); lia. Qed.

Lemma py_div_ok (a d : R) : d <> 0 -> py_div a d = ret (a / d).
Proof.
  intros Hd. unfold py_div. destruct (Req_dec_T d 0); [contradiction | reflexivity].
Qed.

Lemma math_sqrt_ok (x : R) : 0 <= x -> math_sqrt x = ret (sqrt x).
Proof.
  intros Hx. unfold math_sqrt. destruct (Rlt_dec x 0); [lra | reflexivity].
Qed.

(** ** The grid generator *)

Lemma grid_Ny_ok (P : Z) (r : R) :
  (0 < P)%Z -> 0 < r ->
  Grid.Ny P r =
    ret (let n := Zfloor (sqrt (IZR P / r)) in if is_even n then (n + 1)%Z else n).
Proof.
  intros HP Hr.
  assert (HPR : 0 < IZR P) by now apply IZR_lt.
  assert (Hq : 0 < IZR P / r) by now apply Rdiv_lt_0_compat.
  unfold Grid.Ny.
  rewrite py_div_ok by lra. rewrite bind_ret_l.
  rewrite math_sqrt_ok by lra. rewrite bind_ret_l.
  rewrite py_int_nonneg by apply sqrt_pos. reflexivity.
Qed.

Lemma grid_Nx_ok (P Ny : Z) :
  (0 < P)%Z -> (0 < Ny)%Z ->
  Grid.Nx P Ny = ret (let n := (P / Ny)%Z in if is_even n then (n + 1)%Z else n).
Proof.
  intros HP HNy.
  assert (HNyR : 0 < IZR Ny) by now apply IZR_lt.
  unfold Grid.Nx.
  rewrite py_div_ok by lra. rewrite bind_ret_l.
  rewrite py_int_quot by lia. reflexivity.
Qed.

Lemma odd_nonneg_pos (n : Z) : Z.odd n = true -> (0 <= n)%Z -> (0 < n)%Z.
Proof.
  intros Ho Hn. destruct (Z.eq_dec n 0) as [-> | Hne]; [discriminate Ho | lia].
Qed.

(** *** Round-to-nearest in binary64 *)

Lemma nearest_even_int (m : Z) : Rounded.nearest_even (IZR m) = m.
Proof.
  unfold Rounded.nearest_even. rewrite ZfloorZ.
  destruct (total_order_T (IZR m - IZR m) (1 / 2)) as [[H | H] | H]; try lra.
  reflexivity.
Qed.

Lemma nearest_even_bounds (t : R) :
  (Zfloor t <= Rounded.nearest_even t <= Zfloor t + 1)%Z.
Proof.
  unfold Rounded.nearest_even.
  destruct (total_order_T (t - IZR (Zfloor t)) (1 / 2)) as [[H | H] | H];
    try destruct (Z.even (Zfloor t)); lia.
Qed.

Lemma nearest_even_err (t : R) : Rabs (IZR (Rounded.nearest_even t) - t) <= 1 / 2.
Proof.
  pose proof (Zfloor_bound t) as [Hlo Hhi].
  unfold Rounded.nearest_even.
  destruct (total_order_T (t - IZR (Zfloor t)) (1 / 2)) as [[H | H] | H].
  - apply Rabs_le. lra.
  - destruct (Z.even (Zfloor t)); [| rewrite plus_IZR]; apply Rabs_le; lra.
  - rewrite plus_IZR. apply Rabs_le. lra.
Qed.

Lemma nearest_even_mono (t u : R) : t <= u -> (Rounded.nearest_even t <= Rounded.nearest_even u)%Z.
Proof.
  intros Htu.
  pose proof (Zfloor_le t u Htu) as Hfl.
  destruct (Z.eq_dec (Zfloor t) (Zfloor u)) as [He | Hne].
  - unfold Rounded.nearest_even. rewrite <- He.
    destruct (total_order_T (t - IZR (Zfloor t)) (1 / 2)) as [[H | H] | H];
      destruct (total_order_T (u - IZR (Zfloor t)) (1 / 2)) as [[H' | H'] | H'];
      try lra; try destruct (Z.even (Zfloor t)); lia.
  - pose proof (nearest_even_bounds t). pose proof (nearest_even_bounds u). lia.
Qed.

Lemma ln_2_pos : 0 < ln 2.
Proof. pose proof ln_lt_2. lra. Qed.

Lemma two_pow_pos (z : Z) : 0 < powerRZ 2 z.
Proof. apply powerRZ_lt. lra. Qed.

Lemma two_pow_add (a b : Z) : powerRZ 2 (a + b) = powerRZ 2 a * powerRZ 2 b.
Proof. apply powerRZ_add. lra. Qed.

Lemma two_pow_IZR (n : Z) : (0 <= n)%Z -> powerRZ 2 n = IZR (2 ^ n).
Proof.
  intros Hn. rewrite <- (Z2Nat.id n Hn) at 1.
  rewrite <- pow_powerRZ. rewrite pow_IZR. rewrite Z2Nat.id by exact Hn. reflexivity.
Qed.

Lemma two_pow_le (a b : Z) : (a <= b)%Z -> powerRZ 2 a <= powerRZ 2 b.
Proof.
  intros H. assert (Hn : (0 <= b - a)%Z) by lia.
  set (n := (b - a)%Z) in Hn.
  replace b with (a + n)%Z by (unfold n; lia).
  rewrite two_pow_add, (two_pow_IZR n) by exact Hn.
  pose proof (two_pow_pos a) as Ha.
  assert (1 <= IZR (2 ^ n)).
  { apply (IZR_le 1). pose proof (Z.pow_pos_nonneg 2 n). lia. }
  nra.
Qed.

Lemma log2_floor_bounds (x : R) :
  0 < x ->
  powerRZ 2 (Zfloor (ln x / ln 2)) <= x < powerRZ 2 (Zfloor (ln x / ln 2) + 1).
Proof.
  intros Hx. pose proof ln_2_pos as H2.
  pose proof (Zfloor_bound (ln x / ln 2)) as [Hlo Hhi].
  set (e := Zfloor (ln x / ln 2)) in *.
  rewrite !powerRZ_Rpower by lra. unfold Rpower.
  rewrite plus_IZR.
  assert (Hl : IZR e * ln 2 <= ln x).
  { apply Rmult_le_reg_r with (/ ln 2); [now apply Rinv_0_lt_compat |].
    rewrite Rmult_assoc, Rinv_r by lra. unfold Rdiv in Hlo. lra. }
  assert (Hh : ln x < (IZR e + 1) * ln 2).
  { apply Rmult_lt_reg_r with (/ ln 2); [now apply Rinv_0_lt_compat |].
    rewrite Rmult_assoc, Rinv_r by lra. unfold Rdiv in Hhi. lra. }
  split.
  - rewrite <- (exp_ln x Hx) at 1.
    destruct Hl as [Hl | Hl]; [left; now apply exp_increasing | right; now rewrite Hl].
  - rewrite <- (exp_ln x Hx) at 1. now apply exp_increasing.
Qed.

Lemma log2_floor_unique (x : R) (e : Z) :
  powerRZ 2 e <= x < powerRZ 2 (e + 1) -> Zfloor (ln x / ln 2) = e.
Proof.
  intros [Hlo Hhi].
  assert (Hx : 0 < x) by (pose proof (two_pow_pos e); lra).
  pose proof (log2_floor_bounds x Hx) as [Hl Hh].
  set (f := Zfloor (ln x / ln 2)) in *.
  destruct (Z_lt_le_dec f e) as [Hlt | Hge].
  - pose proof (two_pow_le (f + 1) e ltac:(lia)). lra.
  - destruct (Z_lt_le_dec e f) as [Hlt | Hle]; [| lia].
    pose proof (two_pow_le (e + 1) f ltac:(lia)). lra.
Qed.

(** A positive real in Rounded.binade [e] rounds into the closed Rounded.binade. *)
Lemma binary64_pos (x : R) :
  0 < x -> Rounded.binary64 x = IZR (Rounded.nearest_even (x / Rounded.ulp x)) * Rounded.ulp x.
Proof.
  intros Hx. unfold Rounded.binary64. destruct (Rlt_dec 0 x); [reflexivity | lra].
Qed.

Lemma binade_upper (x : R) : 0 < x -> x < powerRZ 2 (Rounded.binade x + 1).
Proof.
  intros Hx. pose proof (log2_floor_bounds x Hx) as [_ Hh].
  apply Rlt_le_trans with (1 := Hh). apply two_pow_le. unfold Rounded.binade. lia.
Qed.

Lemma binade_lower (x : R) :
  0 < x -> (-1022 < Rounded.binade x)%Z -> powerRZ 2 (Rounded.binade x) <= x.
Proof.
  intros Hx Hb. pose proof (log2_floor_bounds x Hx) as [Hl _].
  unfold Rounded.binade in *. replace (Z.max (-1022) (Zfloor (ln x / ln 2))) with (Zfloor (ln x / ln 2)) by lia.
  exact Hl.
Qed.

Lemma binade_mono (x y : R) : 0 < x -> x <= y -> (Rounded.binade x <= Rounded.binade y)%Z.
Proof.
  intros Hx Hxy. unfold Rounded.binade.
  apply Z.max_le_compat_l. apply Zfloor_le.
  apply Rmult_le_compat_r; [left; apply Rinv_0_lt_compat, ln_2_pos |].
  destruct Hxy as [Hlt | ->]; [left; apply ln_increasing; lra | right; reflexivity].
Qed.

Lemma ulp_pos (x : R) : 0 < Rounded.ulp x.
Proof. apply two_pow_pos. Qed.

Lemma binary64_upper (x : R) : 0 < x -> Rounded.binary64 x <= powerRZ 2 (Rounded.binade x + 1).
Proof.
  intros Hx. rewrite binary64_pos by exact Hx.
  pose proof (ulp_pos x) as Hu.
  replace (Rounded.binade x + 1)%Z with (53 + (Rounded.binade x - 52))%Z by lia.
  rewrite two_pow_add. fold (Rounded.ulp x).
  apply Rmult_le_compat_r; [lra |].
  rewrite two_pow_IZR by lia. apply IZR_le.
  rewrite <- (nearest_even_int (2 ^ 53)).
  apply nearest_even_mono.
  apply Rmult_le_reg_r with (Rounded.ulp x); [exact Hu |].
  unfold Rdiv. rewrite Rmult_assoc, Rinv_l by lra. rewrite Rmult_1_r.
  rewrite <- two_pow_IZR by lia. unfold Rounded.ulp. rewrite <- two_pow_add.
  replace (53 + (Rounded.binade x - 52))%Z with (Rounded.binade x + 1)%Z by lia.
  left. now apply binade_upper.
Qed.

Lemma binary64_lower (x : R) :
  0 < x -> (-1022 < Rounded.binade x)%Z -> powerRZ 2 (Rounded.binade x) <= Rounded.binary64 x.
Proof.
  intros Hx Hb. rewrite binary64_pos by exact Hx.
  pose proof (ulp_pos x) as Hu.
  replace (Rounded.binade x) with (52 + (Rounded.binade x - 52))%Z at 1 by lia.
  rewrite two_pow_add. fold (Rounded.ulp x).
  apply Rmult_le_compat_r; [lra |].
  rewrite two_pow_IZR by lia. apply IZR_le.
  rewrite <- (nearest_even_int (2 ^ 52)).
  apply nearest_even_mono.
  apply Rmult_le_reg_r with (Rounded.ulp x); [exact Hu |].
  unfold Rdiv. rewrite Rmult_assoc, Rinv_l by lra. rewrite Rmult_1_r.
  rewrite <- two_pow_IZR by lia. unfold Rounded.ulp. rewrite <- two_pow_add.
  replace (52 + (Rounded.binade x - 52))%Z with (Rounded.binade x) by lia.
  now apply binade_lower.
Qed.

Lemma binary64_nonneg (x : R) : 0 <= x -> 0 <= Rounded.binary64 x.
Proof.
  intros [Hx | <-].
  - rewrite binary64_pos by exact Hx. pose proof (ulp_pos x) as Hu.
    apply Rmult_le_pos; [| lra].
    apply IZR_le. rewrite <- (nearest_even_int 0).
    apply nearest_even_mono. apply Rmult_le_pos; [lra |].
    left. now apply Rinv_0_lt_compat.
  - unfold Rounded.binary64. destruct (Rlt_dec 0 0); [lra |]. destruct (Rlt_dec 0 0); lra.
Qed.

Lemma binary64_mono (x y : R) : 0 <= x -> x <= y -> Rounded.binary64 x <= Rounded.binary64 y.
Proof.
  intros [Hx | <-] Hxy.
  - assert (Hy : 0 < y) by lra.
    pose proof (binade_mono x y Hx Hxy) as Hb.
    destruct (Z.eq_dec (Rounded.binade x) (Rounded.binade y)) as [He | Hne].
    + rewrite !binary64_pos by assumption.
      unfold Rounded.ulp. rewrite <- He. fold (Rounded.ulp x). pose proof (ulp_pos x) as Hu.
      apply Rmult_le_compat_r; [lra |].
      apply IZR_le, nearest_even_mono.
      apply Rmult_le_compat_r; [left; now apply Rinv_0_lt_compat | exact Hxy].
    + apply Rle_trans with (powerRZ 2 (Rounded.binade x + 1)); [now apply binary64_upper |].
      apply Rle_trans with (powerRZ 2 (Rounded.binade y)); [apply two_pow_le; lia |].
      apply binary64_lower; [exact Hy |]. unfold Rounded.binade in *. lia.
  - replace (Rounded.binary64 0) with 0; [now apply binary64_nonneg |].
    unfold Rounded.binary64. destruct (Rlt_dec 0 0); lra.
Qed.

Lemma binary64_abs_err (x : R) :
  0 < x -> Rabs (Rounded.binary64 x - x) <= Rounded.ulp x / 2.
Proof.
  intros Hx. rewrite binary64_pos by exact Hx.
  pose proof (ulp_pos x) as Hu.
  pose proof (nearest_even_err (x / Rounded.ulp x)) as He.
  replace (IZR (Rounded.nearest_even (x / Rounded.ulp x)) * Rounded.ulp x - x)
    with ((IZR (Rounded.nearest_even (x / Rounded.ulp x)) - x / Rounded.ulp x) * Rounded.ulp x) by (field; lra).
  rewrite Rabs_mult, (Rabs_right (Rounded.ulp x)) by lra.
  replace (Rounded.ulp x / 2) with (1 / 2 * Rounded.ulp x) by lra.
  apply Rmult_le_compat_r; lra.
Qed.

Lemma binary64_int (k : Z) : (0 <= k <= 2 ^ 53)%Z -> Rounded.binary64 (IZR k) = IZR k.
Proof.
  intros Hk. destruct (Z.eq_dec k 0) as [-> | Hk0].
  - unfold Rounded.binary64. destruct (Rlt_dec 0 0); [lra |]. destruct (Rlt_dec 0 0); lra.
  - assert (Hx : 0 < IZR k) by (apply IZR_lt; lia).
    assert (H1 : 1 <= IZR k) by (apply IZR_le; lia).
    assert (Hb0 : (0 <= Zfloor (ln (IZR k) / ln 2))%Z).
    { pose proof (log2_floor_bounds (IZR k) Hx) as [_ Hh].
      destruct (Z_lt_le_dec (Zfloor (ln (IZR k) / ln 2)) 0) as [Hneg | Hok]; [| exact Hok].
      pose proof (two_pow_le (Zfloor (ln (IZR k) / ln 2) + 1) 0 ltac:(lia)) as Hp.
      simpl in Hp. lra. }
    assert (Hb53 : (Zfloor (ln (IZR k) / ln 2) <= 53)%Z).
    { pose proof (log2_floor_bounds (IZR k) Hx) as [Hl _].
      destruct (Z_lt_le_dec 53 (Zfloor (ln (IZR k) / ln 2))) as [Hbig | Hok]; [| lia].
      pose proof (two_pow_le 54 (Zfloor (ln (IZR k) / ln 2)) ltac:(lia)) as Hp.
      rewrite two_pow_IZR in Hp by lia.
      assert (IZR k <= IZR (2 ^ 53)) by (apply IZR_le; lia).
      assert (IZR (2 ^ 53) < IZR (2 ^ 54)) by (apply IZR_lt; lia).
      lra. }
    assert (Hb : Rounded.binade (IZR k) = Zfloor (ln (IZR k) / ln 2)) by (unfold Rounded.binade; lia).
    rewrite binary64_pos by exact Hx.
    pose proof (ulp_pos (IZR k)) as Hu.
    set (e := Rounded.binade (IZR k)) in *.
    destruct (Z_le_gt_dec e 52) as [Hle | Hgt].
    + assert (Hm : IZR k / Rounded.ulp (IZR k) = IZR (k * 2 ^ (52 - e))).
      { unfold Rounded.ulp. fold e. rewrite mult_IZR, <- two_pow_IZR by lia.
        replace (e - 52)%Z with (- (52 - e))%Z by lia.
        rewrite powerRZ_neg'. unfold Rdiv. rewrite Rinv_inv. reflexivity. }
      rewrite Hm, nearest_even_int. rewrite <- Hm. field. lra.
    + assert (He : e = 53%Z) by lia.
      assert (Hk53 : k = (2 ^ 53)%Z).
      { pose proof (log2_floor_bounds (IZR k) Hx) as [Hl _].
        rewrite <- Hb, He in Hl. rewrite two_pow_IZR in Hl by lia.
        apply le_IZR in Hl. lia. }
      assert (Hm : IZR k / Rounded.ulp (IZR k) = IZR (2 ^ 52)).
      { unfold Rounded.ulp. fold e. rewrite He, Hk53. simpl. lra. }
      rewrite Hm, nearest_even_int. rewrite <- Hm. field. lra.
Qed.

Lemma binary64_rel (x : R) :
  / IZR (2 ^ 30) <= x <= IZR (2 ^ 53) -> Rabs (Rounded.binary64 x - x) <= x / IZR (2 ^ 53).
Proof.
  intros [Hlo Hhi].
  assert (H30 : 0 < / IZR (2 ^ 30)) by (apply Rinv_0_lt_compat, IZR_lt; lia).
  assert (Hx : 0 < x) by lra.
  apply Rle_trans with (Rounded.ulp x / 2); [now apply binary64_abs_err |].
  assert (Hb : (-1022 < Rounded.binade x)%Z).
  { unfold Rounded.binade.
    assert ((-30 <= Zfloor (ln x / ln 2))%Z); [| lia].
    pose proof (log2_floor_bounds x Hx) as [_ Hh].
    destruct (Z_lt_le_dec (Zfloor (ln x / ln 2)) (-30)) as [Hs | Hok]; [| exact Hok].
    pose proof (two_pow_le (Zfloor (ln x / ln 2) + 1) (-30) ltac:(lia)) as Hp.
    replace (-30)%Z with (- (30))%Z in Hp by lia.
    rewrite powerRZ_neg', (two_pow_IZR 30) in Hp by lia. lra. }
  pose proof (binade_lower x Hx Hb) as Hl.
  unfold Rounded.ulp. replace (Rounded.binade x - 52)%Z with (Rounded.binade x + - (53) + 1)%Z by lia.
  rewrite !two_pow_add, powerRZ_neg', (two_pow_IZR 53) by lia.
  assert (H53 : 0 < IZR (2 ^ 53)) by (apply IZR_lt; lia).
  simpl (powerRZ 2 1). unfold Rdiv.
  replace (powerRZ 2 (Rounded.binade x) * / IZR (2 ^ 53) * (2 * 1) * / 2)
    with (powerRZ 2 (Rounded.binade x) * / IZR (2 ^ 53)) by lra.
  apply Rmult_le_compat_r; [left; now apply Rinv_0_lt_compat | exact Hl].
Qed.

Lemma binary64_standard : Rounded.standard Rounded.binary64.
Proof.
  constructor.
  - exact binary64_mono.
  - exact binary64_int.
  - exact binary64_rel.
Qed.

Lemma nearest_even_near (t : R) (m : Z) :
  Rabs (t - IZR m) < 1 / 2 -> Rounded.nearest_even t = m.
Proof.
  intros Hn. apply Rabs_def2 in Hn. destruct Hn as [Hu Hl].
  unfold Rounded.nearest_even.
  pose proof (Zfloor_bound t) as [Hfl Hfu].
  assert (Hcase : Zfloor t = m \/ Zfloor t = (m - 1)%Z).
  { destruct (Rle_dec (IZR m) t) as [Hge | Hlt].
    - left. apply Zfloor_eq. lra.
    - right. apply Zfloor_eq. rewrite minus_IZR. lra. }
  destruct Hcase as [-> | Hf].
  - destruct (total_order_T (t - IZR m) (1 / 2)) as [[H | H] | H]; [reflexivity | lra | lra].
  - rewrite Hf. rewrite minus_IZR.
    destruct (total_order_T (t - (IZR m - 1)) (1 / 2)) as [[H | H] | H]; [lra | lra | lia].
Qed.

Lemma binade_of_bounds (x : R) (e : Z) :
  (-1022 <= e)%Z -> powerRZ 2 e <= x < powerRZ 2 (e + 1) -> Rounded.binade x = e.
Proof.
  intros He Hb. unfold Rounded.binade. rewrite (log2_floor_unique x e Hb). lia.
Qed.

Lemma binary64_value (x : R) (e m : Z) :
  (-1022 <= e)%Z -> powerRZ 2 e <= x < powerRZ 2 (e + 1) ->
  Rabs (x / powerRZ 2 (e - 52) - IZR m) < 1 / 2 ->
  Rounded.binary64 x = IZR m * powerRZ 2 (e - 52).
Proof.
  intros He Hb Hn.
  assert (Hx : 0 < x) by (pose proof (two_pow_pos e); lra).
  rewrite binary64_pos by exact Hx.
  unfold Rounded.ulp. rewrite (binade_of_bounds x e He Hb).
  now rewrite (nearest_even_near _ m Hn).
Qed.

(** *** With rounded arithmetic *)

Lemma rounded_div_ok (rnd : R -> R) (a d : R) :
  d <> 0 -> Rounded.div rnd a d = ret (rnd (a / d)).
Proof.
  intros Hd. unfold Rounded.div. destruct (Req_dec_T d 0); [contradiction | reflexivity].
Qed.

Lemma rounded_sqrt_ok (rnd : R -> R) (x : R) :
  0 <= x -> Rounded.math_sqrt rnd x = ret (rnd (sqrt x)).
Proof.
  intros Hx. unfold Rounded.math_sqrt. destruct (Rlt_dec x 0); [lra | reflexivity].
Qed.

Lemma standard_nonneg (rnd : R -> R) (x : R) :
  Rounded.standard rnd -> 0 <= x -> 0 <= rnd x.
Proof.
  intros H Hx. rewrite <- (Rounded.rnd_int rnd H 0) by lia.
  apply (Rounded.rnd_mono rnd H); lra.
Qed.

Lemma standard_below_int (rnd : R -> R) (x : R) (k : Z) :
  Rounded.standard rnd -> (0 <= k <= 2 ^ 53)%Z -> 0 <= x <= IZR k -> rnd x <= IZR k.
Proof.
  intros H Hk Hx. rewrite <- (Rounded.rnd_int rnd H k) by exact Hk.
  apply (Rounded.rnd_mono rnd H); tauto.
Qed.

Lemma standard_above_int (rnd : R -> R) (x : R) (k : Z) :
  Rounded.standard rnd -> (0 <= k <= 2 ^ 53)%Z -> IZR k <= x -> IZR k <= rnd x.
Proof.
  intros H Hk Hx. rewrite <- (Rounded.rnd_int rnd H k) at 1 by exact Hk.
  apply (Rounded.rnd_mono rnd H); [apply IZR_le; lia | exact Hx].
Qed.

Lemma sqrt_two_pow_52 : sqrt (IZR (2 ^ 52)) = IZR (2 ^ 26).
Proof.
  replace (IZR (2 ^ 52)) with (IZR (2 ^ 26) * IZR (2 ^ 26)).
  - apply sqrt_square. apply IZR_le. lia.
  - rewrite <- mult_IZR. f_equal.
Qed.

(** The rounded quotient of two ints truncates to the integer quotient:
    the exact quotient is at least [1 / d] below the next integer, and the
    rounding moves it by less than that when [a < 2 ^ 53]. *)
Lemma rounded_int_quot (rnd : R -> R) (a d : Z) :
  Rounded.standard rnd ->
  (0 < a < 2 ^ 53)%Z -> (0 < d <= 2 ^ 26 + 1)%Z ->
  py_int (rnd (IZR a / IZR d)) = (a / d)%Z.
Proof.
  intros H Ha Hd.
  assert (HdR : 0 < IZR d) by (apply IZR_lt; lia).
  assert (HaR : 0 < IZR a) by (apply IZR_lt; lia).
  assert (HaU : IZR a < IZR (2 ^ 53)) by (apply IZR_lt; lia).
  assert (HdU : IZR d <= IZR (2 ^ 26 + 1)) by (apply IZR_le; lia).
  assert (H53 : 0 < IZR (2 ^ 53)) by (apply IZR_lt; lia).
  assert (H30 : 0 < IZR (2 ^ 30)) by (apply IZR_lt; lia).
  set (k := (a / d)%Z).
  assert (Hk : (0 <= k)%Z) by (apply Z.div_pos; lia).
  assert (Hkle : (k <= a)%Z).
  { unfold k. apply Z.div_le_upper_bound; nia. }
  pose proof (Z.mul_div_le a d ltac:(lia)) as Hlo. fold k in Hlo.
  pose proof (Z.mul_succ_div_gt a d ltac:(lia)) as Hhi. fold k in Hhi.
  assert (HloR : IZR k <= IZR a / IZR d).
  { apply Rmult_le_reg_r with (IZR d); [exact HdR |].
    unfold Rdiv. rewrite Rmult_assoc, Rinv_l by lra.
    rewrite Rmult_1_r, <- mult_IZR. apply IZR_le. lia. }
  assert (HhiR : IZR a / IZR d <= IZR k + 1 - / IZR d).
  { apply Rmult_le_reg_r with (IZR d); [exact HdR |].
    unfold Rdiv. rewrite Rmult_assoc, Rinv_l by lra.
    rewrite Rmult_1_r, Rmult_minus_distr_r, Rinv_l by lra.
    replace ((IZR k + 1) * IZR d - 1) with (IZR ((k + 1) * d - 1))
      by (rewrite minus_IZR, mult_IZR, plus_IZR; reflexivity).
    apply IZR_le. lia. }
  assert (Hidpos : 0 < / IZR d) by now apply Rinv_0_lt_compat.
  apply py_int_of_bounds; [exact Hk | split].
  - apply standard_above_int; [exact H | lia | exact HloR].
  - assert (Hrange : / IZR (2 ^ 30) <= IZR a / IZR d <= IZR (2 ^ 53)).
    { split.
      - apply Rle_trans with (/ IZR d).
        + apply Rinv_le_contravar; [exact HdR |].
          apply Rle_trans with (IZR (2 ^ 26 + 1)); [exact HdU | apply IZR_le; lia].
        + unfold Rdiv. rewrite <- (Rmult_1_l (/ IZR d)) at 1.
          apply Rmult_le_compat_r; [lra |].
          apply (IZR_le 1). lia.
      - apply Rle_trans with (IZR a); [| lra].
        unfold Rdiv. rewrite <- (Rmult_1_r (IZR a)) at 2.
        apply Rmult_le_compat_l; [lra |].
        rewrite <- Rinv_1. apply Rinv_le_contravar; [lra |].
        apply (IZR_le 1). lia. }
    pose proof (Rounded.rnd_rel rnd H _ Hrange) as Hrel.
    pose proof (Rle_trans _ _ _ (Rle_abs _) Hrel) as Hup.
    assert (Hsmall : IZR a / IZR d / IZR (2 ^ 53) < / IZR d).
    { unfold Rdiv. rewrite Rmult_assoc, (Rmult_comm (/ IZR d)), <- Rmult_assoc.
      rewrite <- (Rmult_1_l (/ IZR d)) at 2.
      apply Rmult_lt_compat_r; [exact Hidpos |].
      apply Rmult_lt_reg_r with (IZR (2 ^ 53)); [exact H53 |].
      rewrite Rmult_assoc, Rinv_l by lra. lra. }
    lra.
Qed.

Lemma rounded_Ny_ok (rnd : R -> R) (P : Z) (r : R) :
  Rounded.standard rnd -> (0 < P)%Z -> 0 < r ->
  Rounded.Ny rnd P r =
    ret (let n := Zfloor (rnd (sqrt (rnd (IZR P / r)))) in
         if is_even n then (n + 1)%Z else n).
Proof.
  intros H HP Hr.
  assert (HPR : 0 < IZR P) by now apply IZR_lt.
  assert (Hq : 0 < IZR P / r) by now apply Rdiv_lt_0_compat.
  unfold Rounded.Ny.
  rewrite rounded_div_ok by lra. rewrite bind_ret_l.
  rewrite rounded_sqrt_ok by (apply standard_nonneg; [exact H | lra]).
  rewrite bind_ret_l.
  rewrite py_int_nonneg; [reflexivity |].
  apply standard_nonneg; [exact H | apply sqrt_pos].
Qed.

(** C7, as the code has it.  The arithmetic is rounded as in binary64
    ([Rounded.standard]), the target count is a positive int below
    [2 ^ 53] and the quotient [P / r] is at most [2 ^ 52], so that no
    operation overflows and every int converts exactly.  Then the grid
    generator raises nothing and returns two odd, positive dimensions; the
    product [Nx * Ny] differs from [P] by at most [Ny], and [Ny] is at most
    one more than the computed square root of the computed [P / r].  The
    deviation is small relative to [P] only when [Ny] is: nothing bounds it
    by a fixed tolerance. *)
Theorem grid_dims_odd_and_close (rnd : R -> R) (P : Z) (r : R) :
  Rounded.standard rnd ->
  (0 < P < 2 ^ 53)%Z -> 0 < r -> IZR P / r <= IZR (2 ^ 52) ->
  exists Nx Ny : Z,
    Rounded.dims rnd P r = ret (Nx, Ny) /\
    Z.odd Nx = true /\ Z.odd Ny = true /\
    (0 < Nx)%Z /\ (0 < Ny)%Z /\
    (Z.abs (Nx * Ny - P) <= Ny)%Z /\
    IZR Ny <= rnd (sqrt (rnd (IZR P / r))) + 1.
Proof.
  intros H HP Hr Hcap.
  assert (HPR : 0 < IZR P) by (apply IZR_lt; lia).
  assert (Hq0 : 0 < IZR P / r) by now apply Rdiv_lt_0_compat.
  set (q := rnd (IZR P / r)).
  assert (Hq : 0 <= q <= IZR (2 ^ 52)).
  { split.
    - apply standard_nonneg; [exact H | lra].
    - apply standard_below_int; [exact H | lia | lra]. }
  set (s := rnd (sqrt q)).
  assert (Hs : 0 <= s <= IZR (2 ^ 26)).
  { split.
    - apply standard_nonneg; [exact H | apply sqrt_pos].
    - apply standard_below_int; [exact H | lia |].
      split; [apply sqrt_pos |].
      rewrite <- sqrt_two_pow_52. apply sqrt_le_1_alt. tauto. }
  set (f := Zfloor s).
  assert (Hf : (0 <= f <= 2 ^ 26)%Z).
  { split.
    - apply Zfloor_lub. simpl. tauto.
    - apply le_IZR. apply Rle_trans with s; [| tauto].
      apply (Zfloor_bound s). }
  set (Ny := if is_even f then (f + 1)%Z else f).
  assert (HNyb : (f <= Ny <= f + 1)%Z) by apply force_odd_bounds.
  assert (HNyodd : Z.odd Ny = true) by apply force_odd_is_odd.
  assert (HNy : (0 < Ny)%Z) by (apply odd_nonneg_pos; [exact HNyodd | lia]).
  set (k := (P / Ny)%Z).
  assert (Hk : (0 <= k)%Z) by (apply Z.div_pos; lia).
  set (Nx := if is_even k then (k + 1)%Z else k).
  assert (HNxb : (k <= Nx <= k + 1)%Z) by apply force_odd_bounds.
  assert (HNxodd : Z.odd Nx = true) by apply force_odd_is_odd.
  assert (HNx : (0 < Nx)%Z) by (apply odd_nonneg_pos; [exact HNxodd | lia]).
  exists Nx, Ny. repeat split; try assumption.
  - unfold Rounded.dims. rewrite rounded_Ny_ok by (assumption || lia).
    rewrite bind_ret_l. fold q s f. cbv zeta. fold Ny.
    unfold Rounded.Nx.
    rewrite rounded_div_ok by (apply not_0_IZR; lia).
    rewrite bind_ret_l.
    rewrite rounded_int_quot by (assumption || lia).
    fold k. cbv zeta. fold Nx. rewrite bind_ret_l. reflexivity.
  - pose proof (Z.mul_div_le P Ny HNy) as Hlo.
    pose proof (Z.mul_succ_div_gt P Ny HNy) as Hhi.
    fold k in Hlo, Hhi.
    apply Z.abs_le. split; nia.
  - pose proof (Zfloor_bound s) as [Hfl _]. fold f in Hfl.
    apply Rle_trans with (IZR (f + 1)); [apply IZR_le; lia |].
    rewrite plus_IZR. lra.
Qed.

(** The float of the script's aspect ratio [8.0 / 12.0] lies within one
    part in [2 ^ 53] of two thirds. *)
Lemma rounded_aspect_ratio (rnd : R -> R) :
  Rounded.standard rnd ->
  2 / 3 - / IZR (2 ^ 53) <= rnd (8 / 12) <= 2 / 3 + / IZR (2 ^ 53).
Proof.
  intros H.
  assert (H30 : / IZR (2 ^ 30) <= / 2).
  { apply Rinv_le_contravar; [lra | apply (IZR_le 2); lia]. }
  assert (H53 : 0 < / IZR (2 ^ 53)) by (apply Rinv_0_lt_compat, IZR_lt; lia).
  assert (Hin : / IZR (2 ^ 30) <= 8 / 12 <= IZR (2 ^ 53)).
  { split; [lra |]. apply Rle_trans with 1; [lra | apply (IZR_le 1); lia]. }
  pose proof (Rounded.rnd_rel rnd H _ Hin) as Hrel.
  unfold Rabs in Hrel. destruct (Rcase_abs (rnd (8 / 12) - 8 / 12)) as [Hneg | Hpos];
    unfold Rdiv in Hrel.
  - assert (8 * / 12 * / IZR (2 ^ 53) <= / IZR (2 ^ 53)) by nra. lra.
  - assert (8 * / 12 * / IZR (2 ^ 53) <= / IZR (2 ^ 53)) by nra. lra.
Qed.

(** The property of C7 holds at the script's input, in binary64:
    [Npc = 10000] and the float of [8.0 / 12.0]. *)
Lemma grid_dims_odd_and_close_witness :
  exists Nx Ny : Z,
    Rounded.dims Rounded.binary64 10000 (Rounded.binary64 (8 / 12)) = ret (Nx, Ny) /\
    Z.odd Nx = true /\ Z.odd Ny = true /\
    (0 < Nx)%Z /\ (0 < Ny)%Z /\
    (Z.abs (Nx * Ny - 10000) <= Ny)%Z /\
    IZR Ny <=
      Rounded.binary64
        (sqrt (Rounded.binary64 (IZR 10000 / Rounded.binary64 (8 / 12)))) + 1.
Proof.
  pose proof (rounded_aspect_ratio Rounded.binary64 binary64_standard) as Hr.
  assert (H53 : / IZR (2 ^ 53) <= / 2).
  { apply Rinv_le_contravar; [lra | apply (IZR_le 2); lia]. }
  apply (grid_dims_odd_and_close Rounded.binary64 10000 (Rounded.binary64 (8 / 12))).
  - exact binary64_standard.
  - lia.
  - lra.
  - apply Rle_trans with (10000 / (1 / 6)).
    + unfold Rdiv. apply Rmult_le_compat_l; [lra |].
      apply Rinv_le_contravar; lra.
    + replace (10000 / (1 / 6)) with 60000 by field.
      apply (IZR_le 60000). lia.
Defined.

Lemma Zfloor_sqrt_between (x : R) (k : Z) :
  (0 <= k)%Z -> IZR k * IZR k <= x < (IZR k + 1) * (IZR k + 1) ->
  Zfloor (sqrt x) = k.
Proof.
  intros Hk [Hlo Hhi].
  assert (HkR : 0 <= IZR k) by now apply IZR_le.
  assert (Hx : 0 <= x) by nra.
  apply Zfloor_eq. split.
  - rewrite <- (sqrt_square (IZR k)) at 1 by exact HkR.
    apply sqrt_le_1; nra.
  - rewrite <- (sqrt_square (IZR k + 1)) by lra.
    apply sqrt_lt_1; nra.
Qed.

(** The float written [1e-4], and the float quotient [1 / 1e-4], which
    rounds up to [10000.0]. *)
Lemma binary64_ten_thousandth :
  Rounded.binary64 (1 / 10000) = 7378697629483821 / 73786976294838206464.
Proof.
  rewrite (binary64_value (1 / 10000) (-14) 7378697629483821).
  - simpl. lra.
  - lia.
  - simpl. lra.
  - simpl. apply Rabs_def1; lra.
Qed.

Lemma binary64_one_by_ten_thousandth :
  Rounded.binary64 (IZR 1 / Rounded.binary64 (1 / 10000)) = 10000.
Proof.
  rewrite binary64_ten_thousandth.
  rewrite (binary64_value _ 13 5497558138880000).
  - simpl. lra.
  - lia.
  - simpl. lra.
  - simpl. apply Rabs_def1; lra.
Qed.

(** C7, the counterexample: one target point on a slab ten thousand times
    longer than wide gives a 1 x 101 grid, a hundred points off a target
    of one; in exact arithmetic, in binary64 and on the machine's floats
    (the last literal is the float [1e-4]) alike. *)
Lemma grid_product_far_from_target :
  Grid.dims 1 (1 / 10000) = ret (1, 101)%Z /\
  100 * IZR 1 <= Rabs (IZR (1 * 101) - IZR 1) /\
  Rounded.dims Rounded.binary64 1 (Rounded.binary64 (1 / 10000)) = ret (1, 101)%Z /\
  Float64.dims 1 0x1.a36e2eb1c432dp-14%float = Some (1, 101)%Z.
Proof.
  split; [| split; [| split]]; [| | | vm_compute; reflexivity].
  - unfold Grid.dims. rewrite grid_Ny_ok by (lia || lra). rewrite bind_ret_l.
    replace (IZR 1 / (1 / 10000)) with 10000 by field.
    rewrite (Zfloor_sqrt_between 10000 100) by (lia || lra).
    cbv zeta. change (if is_even 100 then (100 + 1)%Z else 100%Z) with 101%Z.
    rewrite grid_Nx_ok by lia. rewrite bind_ret_l. reflexivity.
  - simpl. rewrite Rabs_right; lra.
  - pose proof binary64_standard as H.
    assert (Hr : 0 < Rounded.binary64 (1 / 10000))
      by (rewrite binary64_ten_thousandth; lra).
    unfold Rounded.dims.
    rewrite rounded_Ny_ok by (assumption || lia). rewrite bind_ret_l.
    rewrite binary64_one_by_ten_thousandth.
    replace 10000 with (100 * 100) by lra. rewrite sqrt_square by lra.
    rewrite (binary64_int 100) by lia. rewrite ZfloorZ.
    cbv zeta. change (if is_even 100 then (100 + 1)%Z else 100%Z) with 101%Z.
    unfold Rounded.Nx.
    rewrite rounded_div_ok by lra. rewrite bind_ret_l.
    rewrite rounded_int_quot by (assumption || lia).
    rewrite bind_ret_l. reflexivity.
Qed.

(** ** The constants of the script, as fractions *)

Lemma Lx_val : Script.Lx = 8.
Proof. unfold Script.Lx. lra. Qed.

Lemma Ly_val : Script.Ly = 12.
Proof. unfold Script.Ly. lra. Qed.

Lemma t_slab_val : Script.t_slab = 2 / 5.
Proof. unfold Script.t_slab. lra. Qed.

Lemma e_design_val : Script.e_design = 3 / 20.
Proof.
  unfold Script.e_design, Script.ecc_factor, Script.e_max, Script.cover.
  rewrite t_slab_val. lra.
Qed.

Lemma sigma_default_val : Script.sigma_default = 3 / 4.
Proof. unfold Script.sigma_default. lra. Qed.

Lemma aspect_ratio_val : Script.aspect_ratio = 2 / 3.
Proof. unfold Script.aspect_ratio. rewrite Lx_val, Ly_val. lra. Qed.

Lemma sigma_max_val : Script.sigma_max = 81 / 8.
Proof.
  unfold Script.sigma_max, Script.M_Nmm, Script.y_mm, Script.I_mm4,
    Script.M, Script.I, Script.y, Script.w, Script.L, Script.b,
    Script.q_total, Script.q_dead, Script.q_live, Script.gamma_concrete.
  rewrite Ly_val, t_slab_val. 
  replace 1e6 with 1000000 by lra.
  replace 1e12 with 1000000000000 by lra.
  replace 1e3 with 1000 by lra.
  replace 1.0 with 1 by lra. replace 5.0 with 5 by lra.
  field.
Qed.

Lemma stress_per_tendon_val : Script.stress_per_tendon = 1953 / 4000.
Proof.
  unfold Script.stress_per_tendon, Script.Ptendon, Script.area_influence,
    Script.cord_area, Script.sigma_u, Script.prestress_ratio.
  rewrite t_slab_val.
  replace 1e3 with 1000 by lra. replace 1.0 with 1 by lra.
  replace 0.7 with (7 / 10) by lra.
  field.
Qed.

(** ** The influence model *)

Lemma exp_le_mono (a c : R) : a <= c -> exp a <= exp c.
Proof.
  intros [Hlt | ->]; [left; now apply exp_increasing | right; reflexivity].
Qed.

Lemma tendon_profile_nonneg (y L e0 : R) :
  0 < L -> 0 <= e0 -> 0 <= y <= L -> 0 <= Script.tendon_profile y L e0.
Proof.
  intros HL He [Hy0 Hy1]. unfold Script.tendon_profile.
  assert (Hu0 : 0 <= y / L) by (apply Rmult_le_pos; [lra | left; now apply Rinv_0_lt_compat]).
  assert (Hu1 : y / L <= 1).
  { apply Rmult_le_reg_r with L; [exact HL |].
    unfold Rdiv. rewrite Rmult_assoc, Rinv_l by lra. lra. }
  apply Rmult_le_pos; [apply Rmult_le_pos; lra | lra].
Qed.

(** The eccentricity factor of the script is at least one on the span. *)
Lemma eccentricity_factor_ge_1 (y : R) :
  0 <= y <= Script.Ly ->
  1 <= 1 + Script.tendon_profile y Script.Ly Script.e_design / (Script.t_slab / 2).
Proof.
  intros Hy.
  assert (Hp : 0 <= Script.tendon_profile y Script.Ly Script.e_design).
  { apply tendon_profile_nonneg; [rewrite Ly_val | rewrite e_design_val | exact Hy]; lra. }
  rewrite t_slab_val.
  replace (2 / 5 / 2) with (/ 5) by lra.
  unfold Rdiv. rewrite Rinv_inv. lra.
Qed.

Lemma kernel_decays (d1 d2 sigma : R) :
  0 < sigma -> 0 <= d1 <= d2 ->
  exp (- d2 ^ 2 / (2 * sigma ^ 2)) <= exp (- d1 ^ 2 / (2 * sigma ^ 2)).
Proof.
  intros Hs [H1 H2]. apply exp_le_mono.
  assert (Hden : 0 < 2 * sigma ^ 2) by nra.
  unfold Rdiv. apply Rmult_le_compat_r; [left; now apply Rinv_0_lt_compat | nra].
Qed.

(** C5: the influence function of the script is the combined influence of
    the specification, [kernel(|x - xc|) * (1 + profile(y) / (t_slab / 2))],
    with the script's [Ly], [e_design] and [t_slab]; its profile is the
    parabola [4 * e0 * (y / Ly) * (1 - y / Ly)], which is 0 at both
    supports and [e0] at midspan for every non-zero span. *)
Theorem influence_is_kernel_times_eccentricity (xc x y sigma : R) :
  0 <= y <= Script.Ly ->
  Script.tendon_influence_with_eccentricity xc x y sigma =
    Spec.influence sigma Script.e_design Script.Ly Script.t_slab xc x y /\
  Script.tendon_influence_with_eccentricity xc x y sigma =
    exp (- (Rabs (x - xc)) ^ 2 / (2 * sigma ^ 2)) *
    (1 + 4 * Script.e_design * (y / Script.Ly) * (1 - y / Script.Ly) / (Script.t_slab / 2)) /\
  Script.tendon_profile 0 Script.Ly Script.e_design = 0 /\
  Script.tendon_profile Script.Ly Script.Ly Script.e_design = 0 /\
  Script.tendon_profile (Script.Ly / 2) Script.Ly Script.e_design = Script.e_design /\
  (forall L e0 : R, L <> 0 ->
     Script.tendon_profile 0 L e0 = 0 /\
     Script.tendon_profile L L e0 = 0 /\
     Script.tendon_profile (L / 2) L e0 = e0).
Proof.
  intros _.
  assert (Hgen : forall L e0 : R, L <> 0 ->
     Script.tendon_profile 0 L e0 = 0 /\
     Script.tendon_profile L L e0 = 0 /\
     Script.tendon_profile (L / 2) L e0 = e0).
  { intros L e0 HL. unfold Script.tendon_profile. repeat split; field; exact HL. }
  assert (HLy : Script.Ly <> 0) by (rewrite Ly_val; lra).
  destruct (Hgen Script.Ly Script.e_design HLy) as (H0 & H1 & H2).
  split; [reflexivity | split; [reflexivity |]].
  split; [exact H0 | split; [exact H1 | split; [exact H2 | exact Hgen]]].
Qed.

Lemma influence_is_kernel_times_eccentricity_witness :
  Script.tendon_influence_with_eccentricity 0.5 1 6 0.75 =
    Spec.influence 0.75 Script.e_design Script.Ly Script.t_slab 0.5 1 6 /\
  Script.tendon_influence_with_eccentricity 0.5 1 6 0.75 =
    exp (- (Rabs (1 - 0.5)) ^ 2 / (2 * 0.75 ^ 2)) *
    (1 + 4 * Script.e_design * (6 / Script.Ly) * (1 - 6 / Script.Ly) / (Script.t_slab / 2)) /\
  Script.tendon_profile 0 Script.Ly Script.e_design = 0 /\
  Script.tendon_profile Script.Ly Script.Ly Script.e_design = 0 /\
  Script.tendon_profile (Script.Ly / 2) Script.Ly Script.e_design = Script.e_design /\
  (forall L e0 : R, L <> 0 ->
     Script.tendon_profile 0 L e0 = 0 /\
     Script.tendon_profile L L e0 = 0 /\
     Script.tendon_profile (L / 2) L e0 = e0).
Proof.
  apply (influence_is_kernel_times_eccentricity 0.5 1 6 0.75).
  rewrite Ly_val. lra.
Defined.

Lemma influence_entry_nonneg (xc x y : R) :
  0 <= y <= Script.Ly ->
  0 <= Script.tendon_influence_with_eccentricity xc x y Script.sigma_default.
Proof.
  intros Hy. pose proof (eccentricity_factor_ge_1 y Hy) as Hf.
  unfold Script.tendon_influence_with_eccentricity. cbv zeta.
  apply Rmult_le_pos; [left; apply exp_pos | lra].
Qed.

Lemma influence_matrix_nonneg (cps : list (R * R)) :
  Forall (fun cp => 0 <= snd cp <= Script.Ly) cps ->
  Forall (Forall (Rle 0)) (Script.influence_matrix cps).
Proof.
  intros Hcps. unfold Script.influence_matrix.
  apply Forall_forall. intros row Hrow.
  apply in_map_iff in Hrow. destruct Hrow as (cp & <- & Hcp).
  apply Forall_forall. intros v Hv.
  apply in_map_iff in Hv. destruct Hv as (xt & <- & _).
  apply influence_entry_nonneg.
  rewrite Forall_forall in Hcps. now apply Hcps.
Qed.

(** C6: on the span [0 <= y <= Ly] every entry of the influence matrix
    (the influence function at the default spread 0.75) is non-negative,
    and for a fixed [y] a larger lateral distance [|x - xc|] never gives a
    larger entry.  So every matrix built from control points on the span
    is non-negative throughout. *)
Theorem influence_nonneg_and_decaying (y : R) :
  0 <= y <= Script.Ly ->
  (forall xc x : R,
     0 <= Script.tendon_influence_with_eccentricity xc x y Script.sigma_default) /\
  (forall xc1 x1 xc2 x2 : R,
     Rabs (x1 - xc1) <= Rabs (x2 - xc2) ->
     Script.tendon_influence_with_eccentricity xc2 x2 y Script.sigma_default <=
     Script.tendon_influence_with_eccentricity xc1 x1 y Script.sigma_default) /\
  (forall cps : list (R * R),
     Forall (fun cp => 0 <= snd cp <= Script.Ly) cps ->
     Forall (Forall (Rle 0)) (Script.influence_matrix cps)).
Proof.
  intros Hy. pose proof (eccentricity_factor_ge_1 y Hy) as Hf.
  split; [| split].
  - intros xc x. now apply influence_entry_nonneg.
  - intros xc1 x1 xc2 x2 Hd.
    unfold Script.tendon_influence_with_eccentricity. cbv zeta.
    apply Rmult_le_compat_r; [lra |].
    apply kernel_decays; [rewrite sigma_default_val; lra |].
    split; [apply Rabs_pos | exact Hd].
  - exact influence_matrix_nonneg.
Qed.

Lemma influence_nonneg_and_decaying_witness :
  (forall xc x : R,
     0 <= Script.tendon_influence_with_eccentricity xc x 6 Script.sigma_default) /\
  (forall xc1 x1 xc2 x2 : R,
     Rabs (x1 - xc1) <= Rabs (x2 - xc2) ->
     Script.tendon_influence_with_eccentricity xc2 x2 6 Script.sigma_default <=
     Script.tendon_influence_with_eccentricity xc1 x1 6 Script.sigma_default) /\
  (forall cps : list (R * R),
     Forall (fun cp => 0 <= snd cp <= Script.Ly) cps ->
     Forall (Forall (Rle 0)) (Script.influence_matrix cps)).
Proof.
  apply (influence_nonneg_and_decaying 6). rewrite Ly_val. lra.
Defined.

(** ** Matrix-vector products and comparisons *)

Lemma rows_check_true (A : list (list R)) (v : list R) :
  rows_have_length A (List.length v) ->
  forallb (fun row => Nat.eqb (List.length row) (List.length v)) A = true.
Proof.
  intros H. apply forallb_forall. intros row Hin.
  apply Nat.eqb_eq. unfold rows_have_length in H.
  rewrite Forall_forall in H. now apply H.
Qed.

Lemma rows_check_iff (A : list (list R)) (k : nat) :
  forallb (fun row => Nat.eqb (List.length row) k) A = true <-> rows_have_length A k.
Proof.
  unfold rows_have_length. rewrite forallb_forall, Forall_forall.
  split; intros H row Hin; specialize (H row Hin); now apply Nat.eqb_eq.
Qed.

Lemma matmul_ok (A : list (list R)) (v : list R) :
  rows_have_length A (List.length v) ->
  matmul A v = ret (map (fun row => dot row v) A).
Proof.
  intros H. unfold matmul. now rewrite rows_check_true.
Qed.

Lemma matmul_inv (A : list (list R)) (v u : list R) :
  outcome (matmul A v) = Ok u ->
  rows_have_length A (List.length v) /\ u = map (fun row => dot row v) A.
Proof.
  unfold matmul.
  destruct (forallb (fun row => Nat.eqb (List.length row) (List.length v)) A) eqn:E.
  - intros H. injection H as <-. split; [now apply rows_check_iff | reflexivity].
  - discriminate.
Qed.

Lemma matmul_trace (A : list (list R)) (v : list R) : trace (matmul A v) = [].
Proof.
  unfold matmul.
  destruct (forallb (fun row => Nat.eqb (List.length row) (List.length v)) A); reflexivity.
Qed.

Lemma dot_mono (row v v' : list R) :
  Forall (Rle 0) row -> Forall2 Rle v v' -> dot row v <= dot row v'.
Proof.
  intros Hrow. revert v v'.
  induction Hrow as [| a row Ha Hrow IH]; intros v v' Hvv'.
  - unfold dot. simpl. lra.
  - destruct Hvv' as [| x x' v v' Hx Hvv'].
    + unfold dot. simpl. lra.
    + specialize (IH v v' Hvv'). unfold dot in *. simpl.
      apply Rplus_le_compat; [now apply Rmult_le_compat_l | exact IH].
Qed.

Lemma ceil_scaled_dominates (n : list R) (s : R) :
  0 <= s -> Forall2 Rle (scale n s) (scale_int (np_ceil_int n) s).
Proof.
  intros Hs. induction n as [| x n IH]; simpl; constructor.
  - apply Rmult_le_compat_r; [exact Hs |]. apply (Zceil_bound x).
  - exact IH.
Qed.

Lemma scale_length (n : list R) (s : R) : List.length (scale n s) = List.length n.
Proof. unfold scale. apply length_map. Qed.

Lemma scale_int_length (x : list Z) (s : R) : List.length (scale_int x s) = List.length x.
Proof. unfold scale_int. apply length_map. Qed.

Lemma np_ceil_int_length (n : list R) : List.length (np_ceil_int n) = List.length n.
Proof. unfold np_ceil_int. apply length_map. Qed.

Lemma Forall2_map_rows {T : Type} (P : R -> R -> Prop) (f g : T -> R) (l : list T) :
  (forall a, In a l -> P (f a) (g a)) -> Forall2 P (map f l) (map g l).
Proof.
  induction l as [| a l IH]; intros H; simpl; constructor.
  - apply H. now left.
  - apply IH. intros a' Ha'. apply H. now right.
Qed.

Lemma Forall2_Rle_Rge_trans (u u' t : list R) :
  Forall2 Rle u u' -> Forall2 Rge u t -> Forall2 Rge u' t.
Proof.
  intros H. revert t. induction H as [| a a' u u' Ha H IH]; intros t Ht.
  - inversion Ht. constructor.
  - inversion Ht as [| ? c ? t' Hc Ht']; subst. constructor; [lra | now apply IH].
Qed.

Lemma matmul_mono (A : list (list R)) (v v' : list R) :
  Forall (Forall (Rle 0)) A -> Forall2 Rle v v' ->
  Forall2 Rle (map (fun row => dot row v) A) (map (fun row => dot row v') A).
Proof.
  intros HA Hv. apply Forall2_map_rows. intros row Hin.
  apply dot_mono; [| exact Hv].
  rewrite Forall_forall in HA. now apply HA.
Qed.

(** ** Rounding *)



(** ** Elementwise comparison and the violation count *)

Lemma matmul_ret (A : list (list R)) (v u : list R) :
  outcome (matmul A v) = Ok u -> matmul A v = ret u.
Proof.
  unfold matmul.
  destruct (forallb (fun row => Nat.eqb (List.length row) (List.length v)) A);
    simpl; intros H; [now injection H as -> | discriminate].
Qed.

Lemma np_sub_ok (u v : list R) :
  List.length u = List.length v -> np_sub u v = ret (differences u v).
Proof.
  intros H. unfold np_sub, same_length. now rewrite H, Nat.eqb_refl.
Qed.

Lemma np_less_ok (u v : list R) :
  List.length u = List.length v -> np_less u v = ret (less_flags u v).
Proof.
  intros H. unfold np_less, same_length. now rewrite H, Nat.eqb_refl.
Qed.

Lemma no_violation_count (u v : list R) :
  List.length u = List.length v ->
  (forall i, (i < List.length u)%nat -> ~ nth i u 0 < nth i v 0) ->
  np_sum_bool (less_flags u v) = 0%nat.
Proof.
  revert v. induction u as [| a u IH]; intros [| c v] Hlen H; try discriminate.
  - reflexivity.
  - unfold np_sum_bool, less_flags in *. simpl.
    destruct (Rlt_dec a c) as [Hlt | _].
    + exfalso. apply (H 0%nat); simpl; [lia | exact Hlt].
    + apply IH; [simpl in Hlen; lia |].
      intros i Hi. apply (H (S i)). simpl. lia.
Qed.

Lemma some_violation_count (u v : list R) :
  List.length u = List.length v ->
  (exists i, (i < List.length u)%nat /\ nth i u 0 < nth i v 0) ->
  np_sum_bool (less_flags u v) <> 0%nat.
Proof.
  revert v. induction u as [| a u IH]; intros [| c v] Hlen (i & Hi & Hlt);
    try discriminate; simpl in Hi; try lia.
  unfold np_sum_bool, less_flags in *. simpl.
  destruct (Rlt_dec a c) as [_ | Hn]; [simpl; lia |].
  destruct i as [| i]; [simpl in Hlt; contradiction |].
  apply IH; [simpl in Hlen; lia |].
  exists i. split; [lia | exact Hlt].
Qed.

Lemma no_violation_Forall2 (u v : list R) :
  List.length u = List.length v ->
  np_sum_bool (less_flags u v) = 0%nat -> Forall2 Rge u v.
Proof.
  revert v. induction u as [| a u IH]; intros [| c v] Hlen H; try discriminate.
  - constructor.
  - unfold np_sum_bool, less_flags in *. simpl in H.
    destruct (Rlt_dec a c) as [Hlt | Hn]; [simpl in H; discriminate |].
    constructor; [lra | apply IH; [simpl in Hlen; lia | exact H]].
Qed.

Lemma Forall2_no_violation (u v : list R) :
  Forall2 Rge u v -> np_sum_bool (less_flags u v) = 0%nat.
Proof.
  induction 1 as [| a c u v Hac H IH]; [reflexivity |].
  unfold np_sum_bool, less_flags in *. simpl.
  destruct (Rlt_dec a c) as [Hlt | _]; [lra | exact IH].
Qed.

(** ** The stages of the core, case by case *)

Section CoreFacts.

Variable solve : lp_problem -> solver_outcome.
Variable A : list (list R).
Variable load_vector : list R.
Variable tendon_x_positions : list R.
Variable n_cord_max : Z.
Variable stress_per_tendon : R.

Let full := induced_stress_full A tendon_x_positions n_cord_max stress_per_tendon.
Let violations := precheck_violations A load_vector tendon_x_positions n_cord_max stress_per_tendon.
Let check := precheck A load_vector tendon_x_positions n_cord_max stress_per_tendon.
Let lp := problem A load_vector tendon_x_positions n_cord_max stress_per_tendon.
Let opt := optimize solve A load_vector tendon_x_positions n_cord_max stress_per_tendon.
Let round := round_and_verify A load_vector stress_per_tendon.
Let run := core solve A load_vector tendon_x_positions n_cord_max stress_per_tendon.

Lemma precheck_violations_ok (u : list R) :
  outcome full = Ok u -> List.length u = List.length load_vector ->
  violations = ret (np_sum_bool (less_flags u load_vector)).
Proof.
  intros Hu Hlen. unfold violations, precheck_violations.
  unfold full, induced_stress_full in Hu. cbv zeta in Hu.
  apply matmul_ret in Hu.
  unfold induced_stress_full. cbv zeta. rewrite Hu, bind_ret_l.
  rewrite np_sub_ok by (symmetry; exact Hlen). rewrite bind_ret_l.
  rewrite np_less_ok by exact Hlen. rewrite bind_ret_l. reflexivity.
Qed.

Lemma precheck_pass :
  violations = ret 0%nat ->
  check = ([Print PrecheckHeader; Print PrecheckSatisfied], Ok tt).
Proof.
  intros H. unfold check, precheck. fold violations. rewrite H, bind_ret_l.
  reflexivity.
Qed.

Lemma precheck_fail (k : nat) :
  violations = ret k -> k <> 0%nat ->
  check = ([Print PrecheckHeader; Print (PrecheckViolated k);
            Print PrecheckInsufficient; Print PrecheckAdvice],
           Raise (RuntimeError infeasible_at_full_capacity)).
Proof.
  intros H Hk. unfold check, precheck. fold violations. rewrite H, bind_ret_l.
  destruct k as [| k]; [contradiction | reflexivity].
Qed.

Lemma optimize_eq :
  opt = ([Print Solving; SolverCall lp; Print Done],
         if String.eqb (status (solve lp)) OPTIMAL
         then Ok (value (solve lp))
         else Raise (ValueError (optimization_failed (status (solve lp))))).
Proof.
  unfold opt, optimize. fold lp. cbv zeta.
  destruct (String.eqb (status (solve lp)) OPTIMAL); reflexivity.
Qed.

Lemma round_and_verify_ok (n_value u : list R) :
  outcome (matmul A (scale_int (np_ceil_int n_value) stress_per_tendon)) = Ok u ->
  List.length u = List.length load_vector ->
  round n_value =
    ([Print (let k := np_sum_bool (less_flags u load_vector) in
             if Nat.ltb 0 k then RoundingWarning k else RoundingSatisfied)],
     Ok (mk_outputs (np_ceil_int n_value) u (differences load_vector u)
                    (np_sum_bool (less_flags u load_vector)))).
Proof.
  intros Hu Hlen. unfold round, round_and_verify. cbv zeta.
  apply matmul_ret in Hu. rewrite Hu, bind_ret_l.
  rewrite np_sub_ok by (symmetry; exact Hlen). rewrite bind_ret_l.
  rewrite np_less_ok by exact Hlen. rewrite bind_ret_l.
  destruct (Nat.ltb 0 (np_sum_bool (less_flags u load_vector))); reflexivity.
Qed.

Lemma core_when_precheck_fails (k : nat) :
  violations = ret k -> k <> 0%nat ->
  run = ([Print PrecheckHeader; Print (PrecheckViolated k);
          Print PrecheckInsufficient; Print PrecheckAdvice],
         Raise (RuntimeError infeasible_at_full_capacity)).
Proof.
  intros H Hk. unfold run, core. fold check.
  rewrite (precheck_fail k H Hk). reflexivity.
Qed.

Lemma core_when_solver_fails :
  violations = ret 0%nat ->
  String.eqb (status (solve lp)) OPTIMAL = false ->
  run = ([Print PrecheckHeader; Print PrecheckSatisfied;
          Print Solving; SolverCall lp; Print Done],
         Raise (ValueError (optimization_failed (status (solve lp))))).
Proof.
  intros H Hst. unfold run, core. fold check opt.
  rewrite (precheck_pass H), optimize_eq, Hst. reflexivity.
Qed.

Lemma core_when_solver_succeeds :
  violations = ret 0%nat ->
  String.eqb (status (solve lp)) OPTIMAL = true ->
  run = ([Print PrecheckHeader; Print PrecheckSatisfied;
          Print Solving; SolverCall lp; Print Done]
           ++ trace (round (value (solve lp))),
         outcome (round (value (solve lp)))).
Proof.
  intros H Hst. unfold run, core. fold check opt round.
  rewrite (precheck_pass H), optimize_eq, Hst.
  rewrite !bind_ok. reflexivity.
Qed.

End CoreFacts.

Lemma same_length_true {T U : Type} (u : list T) (v : list U) :
  same_length u v = true -> List.length u = List.length v.
Proof. unfold same_length. apply Nat.eqb_eq. Qed.

Lemma precheck_violations_inv
  (A : list (list R)) (load_vector tendon_x_positions : list R)
  (n_cord_max : Z) (stress_per_tendon : R) (k : nat) :
  outcome (precheck_violations A load_vector tendon_x_positions n_cord_max stress_per_tendon)
    = Ok k ->
  exists u,
    outcome (induced_stress_full A tendon_x_positions n_cord_max stress_per_tendon) = Ok u /\
    List.length u = List.length load_vector /\
    k = np_sum_bool (less_flags u load_vector).
Proof.
  unfold precheck_violations.
  destruct (induced_stress_full A tendon_x_positions n_cord_max stress_per_tendon)
    as [tr [u | e]] eqn:Efull; [| discriminate].
  assert (Htr : tr = []).
  { unfold induced_stress_full in Efull. cbv zeta in Efull.
    pose proof (matmul_trace A
      (scale_int (np_full (List.length tendon_x_positions) n_cord_max) stress_per_tendon)) as Ht.
    rewrite Efull in Ht. exact Ht. }
  subst tr. change ([], Ok u) with (ret u). rewrite bind_ret_l.
  unfold np_sub, np_less.
  destruct (same_length load_vector u) eqn:E1; [| discriminate].
  rewrite bind_ret_l.
  destruct (same_length u load_vector) eqn:E2; [| discriminate].
  rewrite bind_ret_l. intros H. injection H as <-.
  exists u. split; [reflexivity | split; [now apply same_length_true | reflexivity]].
Qed.

Lemma precheck_violations_trace
  (A : list (list R)) (load_vector tendon_x_positions : list R)
  (n_cord_max : Z) (stress_per_tendon : R) :
  trace (precheck_violations A load_vector tendon_x_positions n_cord_max stress_per_tendon) = [].
Proof.
  unfold precheck_violations, induced_stress_full, matmul, np_sub, np_less.
  cbv zeta.
  destruct (forallb _ A); [| reflexivity]. rewrite bind_ret_l.
  destruct (same_length load_vector _); [| reflexivity]. rewrite bind_ret_l.
  destruct (same_length _ load_vector); reflexivity.
Qed.

Lemma precheck_ok_inv
  (A : list (list R)) (load_vector tendon_x_positions : list R)
  (n_cord_max : Z) (stress_per_tendon : R) :
  outcome (precheck A load_vector tendon_x_positions n_cord_max stress_per_tendon) = Ok tt ->
  precheck_violations A load_vector tendon_x_positions n_cord_max stress_per_tendon
    = ret 0%nat.
Proof.
  unfold precheck.
  pose proof (precheck_violations_trace A load_vector tendon_x_positions
                n_cord_max stress_per_tendon) as Htr.
  destruct (precheck_violations A load_vector tendon_x_positions n_cord_max stress_per_tendon)
    as [tr [k | e]]; unfold trace in Htr; simpl in Htr; subst tr.
  - change ([], Ok k) with (ret k). rewrite bind_ret_l.
    destruct k as [| k]; [reflexivity | discriminate].
  - discriminate.
Qed.

Lemma scale_int_full (T : nat) (n_cord_max : Z) (s : R) :
  scale_int (np_full T n_cord_max) s = repeat (IZR n_cord_max * s) T.
Proof. unfold scale_int, np_full. apply map_repeat. Qed.

Lemma scale_of_IZR (x : list Z) (s : R) : scale (map IZR x) s = scale_int x s.
Proof. unfold scale, scale_int. rewrite map_map. reflexivity. Qed.

(** ** The run of the script *)

Lemma script_Ny : Grid.Ny Script.Npc Script.aspect_ratio = ret 123%Z.
Proof.
  rewrite aspect_ratio_val. unfold Script.Npc.
  rewrite grid_Ny_ok by (lia || lra).
  replace (IZR 10000 / (2 / 3)) with 15000 by field.
  rewrite (Zfloor_sqrt_between 15000 122) by (lia || lra).
  reflexivity.
Qed.

Lemma script_Nx : Grid.Nx Script.Npc 123 = ret 81%Z.
Proof.
  unfold Script.Npc. rewrite grid_Nx_ok by lia. reflexivity.
Qed.

Lemma script_dims : Grid.dims Script.Npc Script.aspect_ratio = ret (81, 123)%Z.
Proof.
  unfold Grid.dims. rewrite script_Ny, bind_ret_l, script_Nx, bind_ret_l.
  reflexivity.
Qed.

Lemma report_eq (load_vector : list R) (o : outputs) :
  exists l1 l2 l3 : line,
    Script.report load_vector o =
      ([Print MassHeader; Print l1; Print l2; Print l3;
        ShowLayout Script.tendon_x_positions (x_opt o);
        ShowStress load_vector (induced_stress o) (final_stress o)],
       Ok tt).
Proof.
  unfold Script.report. cbv zeta. do 3 eexists. reflexivity.
Qed.

(** The whole run is the preamble, the core on the script's arrays, and,
    when the core returns, the report. *)
Lemma main_eq (solve : lp_problem -> solver_outcome) :
  Script.main solve =
    ((script_preamble, Ok tt) ;;;
     o <- script_core solve ;;
     Script.report script_load_vector o ;;;
     ret o).
Proof.
  unfold Script.main.
  rewrite script_Ny.
  set (k := fun Ny : Z => _).
  unfold print at 3. rewrite !bind_ok.
  unfold k. rewrite bind_ret_l, script_Nx, bind_ret_l.
  unfold print. rewrite !bind_ok. reflexivity.
Qed.

Lemma main_when_core_raises (solve : lp_problem -> solver_outcome) (e : exn) :
  outcome (script_core solve) = Raise e ->
  Script.main solve = (script_preamble ++ trace (script_core solve), Raise e).
Proof.
  intros H. rewrite main_eq.
  destruct (script_core solve) as [tr r]. unfold outcome in H. simpl in H. subst r.
  reflexivity.
Qed.

Lemma main_when_core_returns (solve : lp_problem -> solver_outcome) (o : outputs) :
  outcome (script_core solve) = Ok o ->
  Script.main solve =
    (script_preamble ++ trace (script_core solve) ++ trace (Script.report script_load_vector o),
     Ok o).
Proof.
  intros H. rewrite main_eq.
  destruct (script_core solve) as [tr r]. unfold outcome in H. simpl in H. subst r.
  rewrite !bind_ok.
  destruct (report_eq script_load_vector o) as (l1 & l2 & l3 & ->).
  reflexivity.
Qed.

(** ** The script's tendons and control points *)

Lemma tendon_x_positions_val :
  Script.tendon_x_positions = [1 / 2; 3 / 2; 5 / 2; 7 / 2; 9 / 2; 11 / 2; 13 / 2; 15 / 2].
Proof.
  unfold Script.tendon_x_positions, np_arange, Script.tendon_spacing.
  rewrite Lx_val.
  rewrite (Zceil_eq 8) by (simpl; lra).
  change (Z.to_nat 8) with 8%nat. unfold seq, map.
  repeat (f_equal; [simpl INR; lra |]). f_equal. simpl INR. lra.
Qed.

Lemma tendon_count : List.length Script.tendon_x_positions = 8%nat.
Proof. rewrite tendon_x_positions_val. reflexivity. Qed.

Lemma linspace_bounds (start stop : R) (num : Z) (v : R) :
  (1 < num)%Z -> start <= stop ->
  In v (np_linspace start stop num) -> start <= v <= stop.
Proof.
  intros Hnum Hle Hin. unfold np_linspace in Hin.
  apply in_map_iff in Hin. destruct Hin as (i & <- & Hi).
  apply in_seq in Hi.
  assert (Hi' : (Z.of_nat i <= num - 1)%Z) by lia.
  apply IZR_le in Hi'. rewrite <- INR_IZR_INZ, minus_IZR in Hi'.
  assert (Hi0 : 0 <= INR i) by apply pos_INR.
  assert (Hn : 0 < IZR num - 1) by (apply IZR_lt in Hnum; lra).
  set (t := INR i / (IZR num - 1)).
  assert (Ht : 0 <= t <= 1).
  { unfold t. split.
    - apply Rmult_le_pos; [exact Hi0 | left; now apply Rinv_0_lt_compat].
    - apply Rmult_le_reg_r with (IZR num - 1); [exact Hn |].
      unfold Rdiv. rewrite Rmult_assoc, Rinv_l by lra. lra. }
  replace (INR i * ((stop - start) / (IZR num - 1))) with (t * (stop - start))
    by (unfold t; field; lra).
  split; nra.
Qed.

Lemma script_control_point_bounds (x y : R) :
  In (x, y) script_control_points ->
  1 / 2 <= x <= 15 / 2 /\ 1 / 2 <= y <= 23 / 2.
Proof.
  unfold script_control_points, Grid.control_points. intros Hin.
  apply in_prod_iff in Hin. destruct Hin as [Hx Hy].
  unfold Grid.x_control in Hx. unfold Grid.y_control in Hy.
  apply linspace_bounds in Hx; [| lia | rewrite Lx_val; lra].
  apply linspace_bounds in Hy; [| lia | rewrite Ly_val; lra].
  rewrite Lx_val in Hx. rewrite Ly_val in Hy. split; lra.
Qed.

(** The influence matrix of the script has no negative entry. *)
Lemma script_A_nonneg : Forall (Forall (Rle 0)) script_A.
Proof.
  apply influence_matrix_nonneg. apply Forall_forall. intros [x y] Hin.
  apply script_control_point_bounds in Hin. rewrite Ly_val. simpl. lra.
Qed.

(** ** Induced stress at full capacity on the script's slab *)

(** Two kernels one tendon spacing apart add up to at least 98/81 between
    their centres. *)
Lemma two_neighbour_kernels (t x : R) :
  t <= x <= t + 1 ->
  98 / 81 <=
    exp (- (Rabs (x - t)) ^ 2 / (2 * (3 / 4) ^ 2)) +
    exp (- (Rabs (x - (t + 1))) ^ 2 / (2 * (3 / 4) ^ 2)).
Proof.
  intros [H0 H1].
  rewrite (Rabs_right (x - t)) by lra.
  rewrite (Rabs_left1 (x - (t + 1))) by lra.
  set (d := x - t).
  replace (- (x - (t + 1))) with (1 - d) by (unfold d; lra).
  assert (Hd : 0 <= d <= 1) by (unfold d; lra).
  set (p := - d ^ 2 / (2 * (3 / 4) ^ 2)).
  set (q := - (1 - d) ^ 2 / (2 * (3 / 4) ^ 2)).
  set (m := (p + q) / 2). set (h := (p - q) / 2).
  replace p with (m + h) by (unfold m, h; lra).
  replace q with (m + - h) by (unfold m, h; lra).
  rewrite !exp_plus.
  pose proof (exp_ineq1_le h) as Hh. pose proof (exp_ineq1_le (- h)) as Hh'.
  pose proof (exp_pos m) as Hm.
  assert (Hmlo : - (4 / 9) <= m).
  { unfold m, p, q. 
    replace ((- d ^ 2 / (2 * (3 / 4) ^ 2) + - (1 - d) ^ 2 / (2 * (3 / 4) ^ 2)) / 2)
      with (- (4 / 9) * (d ^ 2 + (1 - d) ^ 2)) by field.
    nra. }
  assert (He : 49 / 81 <= exp m).
  { apply Rle_trans with (exp (- (4 / 9))); [| now apply exp_le_mono].
    replace (- (4 / 9)) with (- (2 / 9) + - (2 / 9)) by lra.
    rewrite exp_plus. pose proof (exp_ineq1_le (- (2 / 9))) as H29. nra. }
  nra.
Qed.

Lemma kernel_sum_lower (x : R) :
  1 / 2 <= x <= 15 / 2 ->
  98 / 81 <=
    fold_right Rplus 0
      (map (fun xt => exp (- (Rabs (x - xt)) ^ 2 / (2 * (3 / 4) ^ 2)))
           [1 / 2; 3 / 2; 5 / 2; 7 / 2; 9 / 2; 11 / 2; 13 / 2; 15 / 2]).
Proof.
  intros Hx. cbn [fold_right map].
  pose proof (exp_pos (- (Rabs (x - 1 / 2)) ^ 2 / (2 * (3 / 4) ^ 2))).
  pose proof (exp_pos (- (Rabs (x - 3 / 2)) ^ 2 / (2 * (3 / 4) ^ 2))).
  pose proof (exp_pos (- (Rabs (x - 5 / 2)) ^ 2 / (2 * (3 / 4) ^ 2))).
  pose proof (exp_pos (- (Rabs (x - 7 / 2)) ^ 2 / (2 * (3 / 4) ^ 2))).
  pose proof (exp_pos (- (Rabs (x - 9 / 2)) ^ 2 / (2 * (3 / 4) ^ 2))).
  pose proof (exp_pos (- (Rabs (x - 11 / 2)) ^ 2 / (2 * (3 / 4) ^ 2))).
  pose proof (exp_pos (- (Rabs (x - 13 / 2)) ^ 2 / (2 * (3 / 4) ^ 2))).
  pose proof (exp_pos (- (Rabs (x - 15 / 2)) ^ 2 / (2 * (3 / 4) ^ 2))).
  destruct (Rle_dec x (3 / 2)).
  { pose proof (two_neighbour_kernels (1 / 2) x ltac:(lra)) as P.
    replace (1 / 2 + 1) with (3 / 2) in P by lra. lra. }
  destruct (Rle_dec x (5 / 2)).
  { pose proof (two_neighbour_kernels (3 / 2) x ltac:(lra)) as P.
    replace (3 / 2 + 1) with (5 / 2) in P by lra. lra. }
  destruct (Rle_dec x (7 / 2)).
  { pose proof (two_neighbour_kernels (5 / 2) x ltac:(lra)) as P.
    replace (5 / 2 + 1) with (7 / 2) in P by lra. lra. }
  destruct (Rle_dec x (9 / 2)).
  { pose proof (two_neighbour_kernels (7 / 2) x ltac:(lra)) as P.
    replace (7 / 2 + 1) with (9 / 2) in P by lra. lra. }
  destruct (Rle_dec x (11 / 2)).
  { pose proof (two_neighbour_kernels (9 / 2) x ltac:(lra)) as P.
    replace (9 / 2 + 1) with (11 / 2) in P by lra. lra. }
  destruct (Rle_dec x (13 / 2)).
  { pose proof (two_neighbour_kernels (11 / 2) x ltac:(lra)) as P.
    replace (11 / 2 + 1) with (13 / 2) in P by lra. lra. }
  pose proof (two_neighbour_kernels (13 / 2) x ltac:(lra)) as P.
  replace (13 / 2 + 1) with (15 / 2) in P by lra. lra.
Qed.

Lemma dot_uniform (k : R -> R) (F c : R) (ts : list R) :
  dot (map (fun t => k t * F) ts) (repeat c (List.length ts)) =
  fold_right Rplus 0 (map k ts) * F * c.
Proof.
  unfold dot. induction ts as [| t ts IH]; simpl.
  - ring.
  - rewrite IH. ring.
Qed.

(** A row of the script's influence matrix. *)
Lemma script_row_uniform (x y c : R) :
  dot (map (fun x_t =>
              Script.tendon_influence_with_eccentricity x_t x y Script.sigma_default)
           Script.tendon_x_positions)
      (repeat c 8) =
  fold_right Rplus 0
    (map (fun xt => exp (- (Rabs (x - xt)) ^ 2 / (2 * (3 / 4) ^ 2)))
         [1 / 2; 3 / 2; 5 / 2; 7 / 2; 9 / 2; 11 / 2; 13 / 2; 15 / 2]) *
  (1 + Script.tendon_profile y Script.Ly Script.e_design / (Script.t_slab / 2)) * c.
Proof.
  rewrite <- tendon_x_positions_val. rewrite <- tendon_count.
  rewrite <- dot_uniform. unfold Script.tendon_influence_with_eccentricity.
  cbv zeta. rewrite sigma_default_val. reflexivity.
Qed.

(** With every tendon at [nu >= 9.9] strands the induced stress reaches the
    target everywhere on the slab between the outer tendons. *)
Lemma uniform_strands_reach_target (nu x y : R) :
  99 / 10 <= nu -> 1 / 2 <= x <= 15 / 2 -> 0 <= y <= 12 ->
  Script.sigma_target y <=
  dot (map (fun x_t =>
              Script.tendon_influence_with_eccentricity x_t x y Script.sigma_default)
           Script.tendon_x_positions)
      (repeat (nu * Script.stress_per_tendon) 8).
Proof.
  intros Hnu Hx Hy. rewrite script_row_uniform.
  pose proof (kernel_sum_lower x Hx) as HS.
  set (S := fold_right Rplus 0 _) in *.
  unfold Script.sigma_target, Script.yc, Script.b', Script.tendon_profile.
  rewrite sigma_max_val, Ly_val, e_design_val, t_slab_val, stress_per_tendon_val.
  set (u := y / 12).
  assert (Hu : 0 <= u <= 1) by (unfold u; lra).
  replace (1 - (y - 12 / 2) ^ 2 / (12 / 2) ^ 2) with (4 * (u * (1 - u)))
    by (unfold u; field).
  replace (1 + 4 * (3 / 20) * u * (1 - u) / (2 / 5 / 2)) with (1 + 3 * (u * (1 - u)))
    by field.
  set (v := u * (1 - u)).
  assert (Hv : 0 <= v <= 1 / 4).
  { unfold v. pose proof (Rle_0_sqr (u - 1 / 2)) as Q. unfold Rsqr in Q.
    split; [apply Rmult_le_pos; lra | lra]. }
  assert (Hc : 0 <= (1 + 3 * v) * (nu * (1953 / 4000))) by nra.
  apply Rle_trans with (98 / 81 * ((1 + 3 * v) * (nu * (1953 / 4000)))).
  - assert (Hc2 : (1 + 3 * v) * (99 / 10 * (1953 / 4000)) <= (1 + 3 * v) * (nu * (1953 / 4000))) by nra.
    nra.
  - rewrite !Rmult_assoc. apply Rmult_le_compat_r; [exact Hc | exact HS].
Qed.

Lemma script_rows : rows_have_length script_A 8.
Proof.
  unfold rows_have_length, script_A, Script.influence_matrix.
  apply Forall_forall. intros row Hrow.
  apply in_map_iff in Hrow. destruct Hrow as (cp & <- & _).
  rewrite length_map. apply tendon_count.
Qed.

Lemma script_matmul_uniform (c : R) :
  matmul script_A (repeat c 8) =
  ret (map (fun cp =>
              dot (map (fun x_t =>
                          Script.tendon_influence_with_eccentricity
                            x_t (fst cp) (snd cp) Script.sigma_default)
                       Script.tendon_x_positions)
                  (repeat c 8))
           script_control_points).
Proof.
  rewrite matmul_ok by (rewrite repeat_length; exact script_rows).
  unfold script_A, Script.influence_matrix. rewrite map_map. reflexivity.
Qed.

Lemma uniform_strands_meet_targets (nu : R) :
  99 / 10 <= nu ->
  exists u,
    matmul script_A (repeat (nu * Script.stress_per_tendon) 8) = ret u /\
    Forall2 Rge u script_load_vector.
Proof.
  intros Hnu. eexists. split; [apply script_matmul_uniform |].
  unfold script_load_vector, Script.sigma_targets.
  apply Forall2_map_rows. intros [x y] Hin. simpl.
  apply script_control_point_bounds in Hin. destruct Hin as [Hx Hy].
  apply Rle_ge. apply uniform_strands_reach_target; [exact Hnu | exact Hx | lra].
Qed.

Lemma Forall2_length_eq {T U : Type} (P : T -> U -> Prop) (l : list T) (l' : list U) :
  Forall2 P l l' -> List.length l = List.length l'.
Proof. induction 1; simpl; congruence. Qed.

Lemma script_precheck_violations :
  precheck_violations script_A script_load_vector Script.tendon_x_positions
    Script.n_cord_max Script.stress_per_tendon = ret 0%nat.
Proof.
  destruct (uniform_strands_meet_targets (IZR Script.n_cord_max)) as (u & Hu & Hge).
  { unfold Script.n_cord_max. lra. }
  rewrite (precheck_violations_ok _ _ _ _ _ u).
  - now rewrite Forall2_no_violation.
  - unfold induced_stress_full. cbv zeta.
    rewrite tendon_count, scale_int_full, Hu. reflexivity.
  - eapply Forall2_length_eq. exact Hge.
Qed.

Lemma script_precheck_passes :
  precheck script_A script_load_vector Script.tendon_x_positions
    Script.n_cord_max Script.stress_per_tendon
  = ([Print PrecheckHeader; Print PrecheckSatisfied], Ok tt).
Proof. apply precheck_pass. exact script_precheck_violations. Qed.

(** ** The linear program: feasible points and the optimal value *)

Lemma objective_repeat (c : R) (k : nat) : objective (repeat c k) = INR k * c.
Proof.
  unfold objective. induction k as [| k IH].
  - simpl. ring.
  - rewrite S_INR. cbn [repeat fold_right]. rewrite IH. ring.
Qed.

Lemma objective_nonneg (ub : Z) (n : list R) : within_bounds ub n -> 0 <= objective n.
Proof.
  unfold within_bounds, objective. induction 1 as [| v n Hv _ IH]; simpl; lra.
Qed.

(** A feasible program has an optimal value: the objective is bounded
    below by 0 on the feasible region. *)
Lemma optimal_value_exists (p : lp_problem) :
  (exists n, feasible p n) -> exists v, optimal_value p v.
Proof.
  intros (n0 & Hn0).
  set (E := fun r : R => exists n, feasible p n /\ r = - objective n).
  assert (Hbound : bound E).
  { exists 0. intros r (n & Hn & ->).
    destruct Hn as (_ & _ & Hb). pose proof (objective_nonneg _ _ Hb). lra. }
  assert (Hne : exists r, E r) by (exists (- objective n0), n0; tauto).
  destruct (completeness E Hbound Hne) as (m & Hub & Hleast).
  exists (- m). split.
  - intros n Hn. assert (E (- objective n)) as HE by (exists n; tauto).
    specialize (Hub _ HE). lra.
  - intros b Hb. assert (Hm : m <= - b); [| lra].
    apply Hleast. intros r (n & Hn & ->). specialize (Hb n Hn). lra.
Qed.

Lemma script_uniform_feasible :
  feasible script_problem (repeat (99 / 10) 8).
Proof.
  unfold feasible, script_problem, problem. cbn [lp_dim lp_A lp_s lp_rhs lp_ub].
  split; [| split].
  - rewrite repeat_length. symmetry. apply tendon_count.
  - destruct (uniform_strands_meet_targets (99 / 10)) as (u & Hu & Hge); [lra |].
    exists u. unfold scale. rewrite map_repeat, Hu. split; [reflexivity | exact Hge].
  - unfold within_bounds, Script.n_cord_max. apply Forall_forall.
    intros v Hv. apply repeat_spec in Hv. subst v. lra.
Qed.

(** ** The int64 cast *)

Lemma astype_int64_exact (z : Z) :
  (INT64_MIN <= z <= INT64_MAX)%Z -> astype_int64 z = z.
Proof.
  intros [Hlo Hhi]. unfold astype_int64.
  apply Z.leb_le in Hlo. apply Z.leb_le in Hhi. rewrite Hlo, Hhi. reflexivity.
Qed.

Lemma fits_int64_ceil (x : R) :
  fits_int64 x -> (INT64_MIN <= Zceil x <= INT64_MAX)%Z.
Proof.
  intros [Hlo Hhi]. pose proof (Zceil_bound x) as [Hcl Hcu]. split.
  - apply Z.lt_succ_r. apply lt_IZR. rewrite succ_IZR. lra.
  - rewrite <- (Zceil_eq INT64_MAX (IZR INT64_MAX)) by lra.
    now apply Zceil_le.
Qed.

Lemma ceil_cast_exact (n : list R) :
  Forall fits_int64 n -> np_ceil_astype_int n = np_ceil_int n.
Proof.
  intros H. unfold np_ceil_astype_int, np_ceil_int.
  apply map_ext_in. intros x Hx.
  apply astype_int64_exact, fits_int64_ceil.
  rewrite Forall_forall in H. now apply H.
Qed.

Lemma within_bounds_fits_int64 (cap : Z) (n : list R) :
  (cap <= INT64_MAX)%Z -> within_bounds cap n -> Forall fits_int64 n.
Proof.
  intros Hcap H. unfold within_bounds in H.
  eapply Forall_impl; [| exact H].
  intros x [Hlo Hhi]. unfold fits_int64.
  assert (IZR INT64_MIN < 0) by (apply (IZR_lt _ 0); unfold INT64_MIN; lia).
  assert (IZR cap <= IZR INT64_MAX) by now apply IZR_le.
  lra.
Qed.

(** * The claims about the pipeline *)



(** C2: the precheck evaluates [A @ (n_cord_max * s)] with every tendon
    at the cap.  If some control point is strictly below its target, the
    run stops with the "cannot be met even with all tendons fully
    activated" [RuntimeError]; its events are the four precheck lines
    only, whatever the solver is, so the program is never handed to the
    solver.  If no control point is below target, the run goes on to the
    optimiser: the solver is called on the program of lines 156--164. *)
Theorem precheck_gates_the_optimizer
  (solve : lp_problem -> solver_outcome) (A : list (list R))
  (load_vector tendon_x_positions : list R) (n_cord_max : Z)
  (stress_per_tendon : R) (u : list R) :
  outcome (induced_stress_full A tendon_x_positions n_cord_max stress_per_tendon) = Ok u ->
  List.length u = List.length load_vector ->
  u = map (fun row =>
             dot row (repeat (IZR n_cord_max * stress_per_tendon)
                             (List.length tendon_x_positions))) A /\
  ((exists i, (i < List.length u)%nat /\ nth i u 0 < nth i load_vector 0) ->
   exists k : nat,
     k <> 0%nat /\
     core solve A load_vector tendon_x_positions n_cord_max stress_per_tendon =
       ([Print PrecheckHeader; Print (PrecheckViolated k);
         Print PrecheckInsufficient; Print PrecheckAdvice],
        Raise (RuntimeError infeasible_at_full_capacity)) /\
     forall p, ~ In (SolverCall p)
                 (trace (core solve A load_vector tendon_x_positions
                              n_cord_max stress_per_tendon))) /\
  ((forall i, (i < List.length u)%nat -> ~ nth i u 0 < nth i load_vector 0) ->
   exists (rest : list event) (r : result outputs),
     core solve A load_vector tendon_x_positions n_cord_max stress_per_tendon =
       (Print PrecheckHeader :: Print PrecheckSatisfied :: Print Solving ::
        SolverCall (problem A load_vector tendon_x_positions n_cord_max stress_per_tendon) ::
        Print Done :: rest, r)).
Proof.
  intros Hu Hlen.
  pose proof (precheck_violations_ok A load_vector tendon_x_positions
                n_cord_max stress_per_tendon u Hu Hlen) as Hv.
  split; [| split].
  - unfold induced_stress_full in Hu. cbv zeta in Hu.
    apply matmul_inv in Hu. destruct Hu as [_ ->].
    now rewrite scale_int_full.
  - intros Hex. exists (np_sum_bool (less_flags u load_vector)).
    pose proof (some_violation_count u load_vector Hlen Hex) as Hk.
    split; [exact Hk |].
    rewrite (core_when_precheck_fails solve _ _ _ _ _ _ Hv Hk).
    split; [reflexivity |].
    intros p Hin. unfold trace in Hin. simpl in Hin.
    repeat (destruct Hin as [Hin | Hin]; [discriminate Hin |]). exact Hin.
  - intros Hall.
    rewrite (no_violation_count u load_vector Hlen Hall) in Hv.
    destruct (String.eqb
                (status (solve (problem A load_vector tendon_x_positions
                                        n_cord_max stress_per_tendon))) OPTIMAL) eqn:Est.
    + rewrite (core_when_solver_succeeds solve _ _ _ _ _ Hv Est).
      do 2 eexists. reflexivity.
    + rewrite (core_when_solver_fails solve _ _ _ _ _ Hv Est).
      do 2 eexists. reflexivity.
Qed.

Lemma precheck_gates_the_optimizer_witness :
  let solve := fun _ : lp_problem => mk_outcome "optimal" [0] in
  [1 * (1 * 1) + 0] = map (fun row => dot row (repeat (IZR 1 * 1) (List.length [1 / 2]))) [[1]] /\
  ((exists i, (i < List.length [1 * (1 * 1) + 0])%nat /\
              nth i [1 * (1 * 1) + 0] 0 < nth i [2] 0) ->
   exists k : nat,
     k <> 0%nat /\
     core solve [[1]] [2] [1 / 2] 1 1 =
       ([Print PrecheckHeader; Print (PrecheckViolated k);
         Print PrecheckInsufficient; Print PrecheckAdvice],
        Raise (RuntimeError infeasible_at_full_capacity)) /\
     forall p, ~ In (SolverCall p) (trace (core solve [[1]] [2] [1 / 2] 1 1))) /\
  ((forall i, (i < List.length [1 * (1 * 1) + 0])%nat ->
              ~ nth i [1 * (1 * 1) + 0] 0 < nth i [2] 0) ->
   exists (rest : list event) (r : result outputs),
     core solve [[1]] [2] [1 / 2] 1 1 =
       (Print PrecheckHeader :: Print PrecheckSatisfied :: Print Solving ::
        SolverCall (problem [[1]] [2] [1 / 2] 1 1) ::
        Print Done :: rest, r)).
Proof.
  apply (precheck_gates_the_optimizer
           (fun _ : lp_problem => mk_outcome "optimal" [0])
           [[1]] [2] [1 / 2] 1 1 [1 * (1 * 1) + 0]); reflexivity.
Defined.

(** C3: when the precheck passes for a non-negative strand cap, the
    vector with every component equal to the cap is a feasible point of
    the linear program the optimiser is given. *)
Theorem precheck_pass_gives_feasible_point
  (A : list (list R)) (load_vector tendon_x_positions : list R)
  (n_cord_max : Z) (stress_per_tendon : R) :
  (0 <= n_cord_max)%Z ->
  outcome (precheck A load_vector tendon_x_positions n_cord_max stress_per_tendon) = Ok tt ->
  feasible (problem A load_vector tendon_x_positions n_cord_max stress_per_tendon)
           (map IZR (np_full (List.length tendon_x_positions) n_cord_max)).
Proof.
  intros Hcap Hpass.
  apply precheck_ok_inv in Hpass.
  assert (Hout : outcome (precheck_violations A load_vector tendon_x_positions
                            n_cord_max stress_per_tendon) = Ok 0%nat)
    by (rewrite Hpass; reflexivity).
  destruct (precheck_violations_inv _ _ _ _ _ _ Hout) as (u & Hu & Hlen & Hk).
  unfold feasible, problem. cbn [lp_dim lp_A lp_s lp_rhs lp_ub].
  split; [| split].
  - unfold np_full. now rewrite length_map, repeat_length.
  - exists u. rewrite scale_of_IZR. split; [exact Hu |].
    apply no_violation_Forall2; [exact Hlen | now symmetry].
  - unfold within_bounds, np_full. apply Forall_forall. intros v Hv.
    apply in_map_iff in Hv. destruct Hv as (k & <- & Hk').
    apply repeat_spec in Hk'. subst k.
    split; [now apply IZR_le | lra].
Qed.

Lemma precheck_pass_gives_feasible_point_witness :
  feasible script_problem
           (map IZR (np_full (List.length Script.tendon_x_positions) Script.n_cord_max)).
Proof.
  apply (precheck_pass_gives_feasible_point script_A script_load_vector
           Script.tendon_x_positions Script.n_cord_max Script.stress_per_tendon).
  - unfold Script.n_cord_max. lia.
  - rewrite script_precheck_passes. reflexivity.
Defined.

(** C4: when the optimiser is reached and the solver reports any status
    other than [cp.OPTIMAL], the run ends in a [ValueError] whose message
    ends with that status, character for character; the last event is the
    line printed after the solver call, so nothing is rounded, verified or
    returned. *)
Theorem non_optimal_status_is_fatal
  (solve : lp_problem -> solver_outcome) (A : list (list R))
  (load_vector tendon_x_positions : list R) (n_cord_max : Z)
  (stress_per_tendon : R) :
  outcome (precheck A load_vector tendon_x_positions n_cord_max stress_per_tendon) = Ok tt ->
  status (solve (problem A load_vector tendon_x_positions n_cord_max stress_per_tendon))
    <> OPTIMAL ->
  core solve A load_vector tendon_x_positions n_cord_max stress_per_tendon =
    ([Print PrecheckHeader; Print PrecheckSatisfied; Print Solving;
      SolverCall (problem A load_vector tendon_x_positions n_cord_max stress_per_tendon);
      Print Done],
     Raise (ValueError
              (String.append "❌ Optimization failed. Status: "
                 (status (solve (problem A load_vector tendon_x_positions
                                         n_cord_max stress_per_tendon)))))).
Proof.
  intros Hpass Hst.
  apply precheck_ok_inv in Hpass. apply String.eqb_neq in Hst.
  exact (core_when_solver_fails solve _ _ _ _ _ Hpass Hst).
Qed.

Lemma non_optimal_status_is_fatal_witness :
  let solve := fun _ : lp_problem => mk_outcome "infeasible_inaccurate" [] in
  script_core solve =
    ([Print PrecheckHeader; Print PrecheckSatisfied; Print Solving;
      SolverCall script_problem; Print Done],
     Raise (ValueError
              (String.append "❌ Optimization failed. Status: "
                 (status (solve script_problem))))).
Proof.
  apply (non_optimal_status_is_fatal
           (fun _ : lp_problem => mk_outcome "infeasible_inaccurate" [])
           script_A script_load_vector Script.tendon_x_positions
           Script.n_cord_max Script.stress_per_tendon).
  - rewrite script_precheck_passes. reflexivity.
  - discriminate.
Defined.

(** The same on the whole script, whose precheck always passes. *)
Lemma script_run_when_solver_fails (solve : lp_problem -> solver_outcome) :
  status (solve script_problem) <> OPTIMAL ->
  Script.main solve =
    (script_preamble ++
       [Print PrecheckHeader; Print PrecheckSatisfied; Print Solving;
        SolverCall script_problem; Print Done],
     Raise (ValueError (optimization_failed (status (solve script_problem))))).
Proof.
  intros Hst. apply String.eqb_neq in Hst.
  pose proof (core_when_solver_fails solve _ _ _ _ _ script_precheck_violations Hst) as Hc.
  fold (script_core solve) in Hc. fold script_problem in Hc.
  rewrite (main_when_core_raises solve
             (ValueError (optimization_failed (status (solve script_problem)))))
    by (rewrite Hc; reflexivity).
  rewrite Hc. reflexivity.
Qed.




(** ** The literal scenario *)

Lemma script_floor_sqrt :
  py_int (sqrt (IZR Script.Npc / Script.aspect_ratio)) = 122%Z.
Proof.
  rewrite aspect_ratio_val. unfold Script.Npc.
  replace (IZR 10000 / (2 / 3)) with 15000 by field.
  rewrite py_int_nonneg by apply sqrt_pos.
  apply Zfloor_sqrt_between; [lia | lra].
Qed.

Lemma script_reaches_solver (solve : lp_problem -> solver_outcome) :
  exists (rest : list event) (r : result outputs),
    Script.main solve =
      (script_preamble ++
         Print PrecheckHeader :: Print PrecheckSatisfied :: Print Solving ::
         SolverCall script_problem :: Print Done :: rest, r).
Proof.
  destruct (String.eqb (status (solve script_problem)) OPTIMAL) eqn:Est.
  - pose proof (core_when_solver_succeeds solve _ _ _ _ _
                  script_precheck_violations Est) as Hc.
    fold (script_core solve) in Hc. fold script_problem in Hc.
    destruct (outcome (script_core solve)) as [o | e] eqn:Eo.
    + rewrite (main_when_core_returns solve o Eo), Hc.
      unfold trace at 1. cbn [fst]. do 2 eexists.
      rewrite <- !app_assoc. reflexivity.
    + rewrite (main_when_core_raises solve e Eo), Hc.
      unfold trace at 1. cbn [fst]. do 2 eexists. reflexivity.
  - apply String.eqb_neq in Est.
    rewrite (script_run_when_solver_fails solve Est). do 2 eexists. reflexivity.
Qed.

(** In binary64 the script computes the same grid. *)
Lemma float64_dims : Float64.dims Script.Npc Float64.aspect_ratio = Some (81, 123)%Z.
Proof. vm_compute. reflexivity. Qed.

Lemma float64_floor_sqrt :
  Float64.float_to_int
    (PrimFloat.sqrt (PrimFloat.div (Float64.int_to_float Script.Npc) Float64.aspect_ratio))
  = Some 122%Z.
Proof. vm_compute. reflexivity. Qed.

(** C8: on the script's slab (8 by 12, thickness 0.40, tendons every 1.0
    from 0.5 to 7.5, 10000 target points, aspect ratio 8/12) the grid
    generator finds [floor (sqrt 15000) = 122], forced odd to [Ny = 123],
    and [Nx = 81], in exact and in binary64 arithmetic alike; the precheck with a cap of 10 strands counts no
    violation, so every run reaches the solver; and the optimal value of
    the linear program exists and is strictly below
    [len(tendon_x_positions) * n_cord_max = 80], as is the objective of
    every optimal solution. *)
Theorem script_scenario :
  Script.Lx = 8 /\ Script.Ly = 12 /\ Script.t_slab = 2 / 5 /\
  Script.tendon_x_positions =
    [1 / 2; 3 / 2; 5 / 2; 7 / 2; 9 / 2; 11 / 2; 13 / 2; 15 / 2] /\
  py_int (sqrt (IZR Script.Npc / Script.aspect_ratio)) = 122%Z /\
  Grid.dims Script.Npc Script.aspect_ratio = ret (81, 123)%Z /\
  Float64.dims Script.Npc Float64.aspect_ratio = Some (81, 123)%Z /\
  precheck_violations script_A script_load_vector Script.tendon_x_positions
    Script.n_cord_max Script.stress_per_tendon = ret 0%nat /\
  (forall solve : lp_problem -> solver_outcome,
     exists (rest : list event) (r : result outputs),
       Script.main solve =
         (script_preamble ++
            Print PrecheckHeader :: Print PrecheckSatisfied :: Print Solving ::
            SolverCall script_problem :: Print Done :: rest, r)) /\
  (exists v : R,
     optimal_value script_problem v /\
     v < IZR (Z.of_nat (List.length Script.tendon_x_positions) * Script.n_cord_max)) /\
  (forall n : list R,
     optimal script_problem n ->
     objective n < IZR (Z.of_nat (List.length Script.tendon_x_positions) * Script.n_cord_max)).
Proof.
  assert (Hobj : objective (repeat (99 / 10) 8) = 396 / 5).
  { rewrite objective_repeat. simpl INR. lra. }
  assert (Hcap : IZR (Z.of_nat (List.length Script.tendon_x_positions) * Script.n_cord_max) = 80).
  { rewrite tendon_count. unfold Script.n_cord_max. simpl. reflexivity. }
  split; [exact Lx_val |]. split; [exact Ly_val |]. split; [exact t_slab_val |].
  split; [exact tendon_x_positions_val |]. split; [exact script_floor_sqrt |].
  split; [exact script_dims |]. split; [exact float64_dims |].
  split; [exact script_precheck_violations |].
  split; [exact script_reaches_solver |]. split.
  - destruct (optimal_value_exists script_problem) as (v & Hv).
    { exists (repeat (99 / 10) 8). exact script_uniform_feasible. }
    exists v. split; [exact Hv |].
    destruct Hv as [Hlow _]. specialize (Hlow _ script_uniform_feasible).
    rewrite Hcap. lra.
  - intros n [_ Hmin]. specialize (Hmin _ script_uniform_feasible).
    rewrite Hcap. lra.
Qed.

(** When the solver reports [cp.OPTIMAL] with one value per tendon, the
    script runs to its end whatever the re-check finds: it returns the
    outputs and shows both figures. *)
Lemma script_run_completes (solve : lp_problem -> solver_outcome) :
  status (solve script_problem) = OPTIMAL ->
  List.length (value (solve script_problem)) = 8%nat ->
  exists (o : outputs) (l : line) (l1 l2 l3 : line),
    x_opt o = np_ceil_int (value (solve script_problem)) /\
    (l = RoundingSatisfied \/ l = RoundingWarning (n_violations o)) /\
    Script.main solve =
      (script_preamble ++
         [Print PrecheckHeader; Print PrecheckSatisfied; Print Solving;
          SolverCall script_problem; Print Done; Print l;
          Print MassHeader; Print l1; Print l2; Print l3;
          ShowLayout Script.tendon_x_positions (x_opt o);
          ShowStress script_load_vector (induced_stress o) (final_stress o)],
       Ok o).
Proof.
  intros Hst Hlen.
  assert (Heq : String.eqb (status (solve script_problem)) OPTIMAL = true)
    by (rewrite Hst; apply String.eqb_refl).
  pose proof (core_when_solver_succeeds solve _ _ _ _ _
                script_precheck_violations Heq) as Hc.
  fold (script_core solve) in Hc. fold script_problem in Hc.
  set (n := value (solve script_problem)) in *.
  set (v := scale_int (np_ceil_int n) Script.stress_per_tendon).
  assert (Hrows : rows_have_length script_A (List.length v)).
  { unfold v. rewrite scale_int_length, np_ceil_int_length, Hlen. exact script_rows. }
  set (u := map (fun row => dot row v) script_A).
  assert (Hu : outcome (matmul script_A v) = Ok u)
    by (rewrite matmul_ok by exact Hrows; reflexivity).
  assert (Hul : List.length u = List.length script_load_vector).
  { unfold u, script_load_vector, script_A, Script.sigma_targets, Script.influence_matrix.
    now rewrite !length_map. }
  rewrite (round_and_verify_ok script_A script_load_vector
             Script.stress_per_tendon n u Hu Hul) in Hc.
  cbv zeta in Hc. unfold trace, outcome in Hc. cbn [fst snd app] in Hc.
  set (k := np_sum_bool (less_flags u script_load_vector)) in *.
  set (o := mk_outputs (np_ceil_int n) u (differences script_load_vector u) k) in *.
  assert (Ho : outcome (script_core solve) = Ok o) by (rewrite Hc; reflexivity).
  destruct (report_eq script_load_vector o) as (l1 & l2 & l3 & Hr).
  exists o, (if Nat.ltb 0 k then RoundingWarning k else RoundingSatisfied), l1, l2, l3.
  split; [reflexivity | split].
  - destruct (Nat.ltb 0 k); [right | left]; reflexivity.
  - rewrite (main_when_core_returns solve o Ho), Hc, Hr. reflexivity.
Qed.

(** * Further properties of the code *)

(** ** The grid generator on every input *)

Lemma py_div_zero (a : R) : py_div a 0 = raise (ZeroDivisionError "division by zero").
Proof.
  unfold py_div. destruct (Req_dec_T 0 0) as [_ | Hn]; [reflexivity | contradiction].
Qed.

Lemma math_sqrt_negative (x : R) : x < 0 -> math_sqrt x = raise (ValueError "math domain error").
Proof.
  intros Hx. unfold math_sqrt. destruct (Rlt_dec x 0); [reflexivity | contradiction].
Qed.

Lemma rounded_div_zero (rnd : R -> R) (a : R) :
  Rounded.div rnd a 0 = raise (ZeroDivisionError "division by zero").
Proof.
  unfold Rounded.div. destruct (Req_dec_T 0 0) as [_ | Hn]; [reflexivity | contradiction].
Qed.

Lemma standard_rel_upper (rnd : R -> R) (x : R) :
  Rounded.standard rnd -> / IZR (2 ^ 30) <= x <= IZR (2 ^ 53) ->
  x - x / IZR (2 ^ 53) <= rnd x <= x + x / IZR (2 ^ 53).
Proof.
  intros H Hx. pose proof (Rounded.rnd_rel rnd H x Hx) as Hrel.
  unfold Rabs in Hrel. destruct (Rcase_abs (rnd x - x)); lra.
Qed.

Lemma two_pow_53_large : / IZR (2 ^ 53) <= / 10000 /\ / IZR (2 ^ 30) <= / 10000.
Proof.
  split; (apply Rinv_le_contravar; [lra | apply (IZR_le 10000); lia]).
Qed.

(** *** A quotient that rounds up to an integer *)

(** The float written [0.1]. *)
Lemma binary64_tenth :
  Rounded.binary64 (1 / 10) = 7205759403792794 / 72057594037927936.
Proof.
  rewrite (binary64_value (1 / 10) (-4) 7205759403792794).
  - simpl. lra.
  - lia.
  - simpl. lra.
  - simpl. apply Rabs_def1; lra.
Qed.

(** [1000 / 0.1] in binary64 is [10000.0]: the exact quotient is below
    10000 by less than half a unit in the last place. *)
Lemma binary64_thousand_by_tenth :
  Rounded.binary64 (IZR 1000 / Rounded.binary64 (1 / 10)) = 10000.
Proof.
  rewrite binary64_tenth.
  rewrite (binary64_value _ 13 5497558138880000).
  - simpl. lra.
  - lia.
  - simpl. lra.
  - simpl. apply Rabs_def1; lra.
Qed.

(** With ten times as wide as long a slab and 1000 target points the
    float arithmetic gives a 9 by 101 grid, on the machine's floats and in
    the rounded model alike, where exact arithmetic on the same inputs
    gives 11 by 99: the float quotient rounds up to [10000.0], whose root
    is the even [100]. *)
Lemma rounded_dims_at_tenth :
  Rounded.dims Rounded.binary64 1000 (Rounded.binary64 (1 / 10)) = ret (9, 101)%Z.
Proof.
  pose proof binary64_standard as H.
  assert (Hr : 0 < Rounded.binary64 (1 / 10)) by (rewrite binary64_tenth; lra).
  unfold Rounded.dims.
  rewrite rounded_Ny_ok by (assumption || lia). rewrite bind_ret_l.
  rewrite binary64_thousand_by_tenth.
  replace 10000 with (100 * 100) by lra. rewrite sqrt_square by lra.
  rewrite (binary64_int 100) by lia. rewrite ZfloorZ.
  cbv zeta. change (if is_even 100 then (100 + 1)%Z else 100%Z) with 101%Z.
  unfold Rounded.Nx.
  rewrite rounded_div_ok by lra. rewrite bind_ret_l.
  rewrite rounded_int_quot by (assumption || lia).
  rewrite bind_ret_l. reflexivity.
Qed.

(** On the machine's floats the dimensions are odd whenever the generator
    returns: line 85 and line 88 see to it, whatever was truncated. *)
Lemma float64_dims_odd (P : Z) (r : float) (Nx Ny : Z) :
  Float64.dims P r = Some (Nx, Ny) -> Z.odd Nx = true /\ Z.odd Ny = true.
Proof.
  unfold Float64.dims, Float64.Ny, Float64.Nx. intros H.
  destruct (Float64.div (Float64.int_to_float P) r) as [q |]; [| discriminate].
  destruct (Float64.math_sqrt q) as [s |]; [| discriminate].
  destruct (Float64.float_to_int s) as [f |]; [| discriminate].
  destruct (Float64.div (Float64.int_to_float P) _) as [q' |]; [| discriminate].
  destruct (Float64.float_to_int q') as [k |]; [| discriminate].
  injection H as <- <-. split; apply force_odd_is_odd.
Qed.

Lemma float64_dims_at_tenth :
  Float64.dims 1000 0x1.999999999999ap-4%float = Some (9, 101)%Z.
Proof. vm_compute. reflexivity. Qed.

Lemma exact_dims_at_tenth :
  Grid.dims 1000 (Rounded.binary64 (1 / 10)) = ret (11, 99)%Z.
Proof.
  rewrite binary64_tenth.
  unfold Grid.dims. rewrite grid_Ny_ok by (lia || lra). rewrite bind_ret_l.
  rewrite (Zfloor_sqrt_between _ 99) by (lia || lra).
  cbv zeta. change (if is_even 99 then (99 + 1)%Z else 99%Z) with 99%Z.
  rewrite grid_Nx_ok by lia. rewrite bind_ret_l. reflexivity.
Qed.

(** X1: the grid generator in floating point.  With [Npc = 10000] and
    the float of [8.0 / 12.0], lines 84--89 give the 81 by 123 grid under
    every rounding that is standard in the sense of [Rounded.standard],
    binary64's round-to-nearest among them, and on the machine's floats:
    the float quotient [Npc / aspect_ratio] lies within 12 of 15000, its
    float square root between 122 and 123, and the float of [10000 / 123]
    between 81 and 82.  The rounding can matter: with 1000 target points
    and the aspect ratio [0.1] the floats give a 9 by 101 grid, where
    exact arithmetic on the same two numbers gives 11 by 99.  On the
    machine's floats both dimensions are odd whenever the generator
    returns.  And for every target count that converts to a float exactly,
    a zero aspect ratio ends the generator with a [ZeroDivisionError] at
    line 84. *)
Theorem script_grid_in_binary64 (rnd : R -> R) :
  Rounded.standard rnd ->
  Rounded.dims rnd Script.Npc (rnd (8 / 12)) = ret (81, 123)%Z /\
  Rounded.dims Rounded.binary64 Script.Npc (Rounded.binary64 (8 / 12)) = ret (81, 123)%Z /\
  Float64.dims Script.Npc Float64.aspect_ratio = Some (81, 123)%Z /\
  Rounded.dims Rounded.binary64 1000 (Rounded.binary64 (1 / 10)) = ret (9, 101)%Z /\
  Float64.dims 1000 0x1.999999999999ap-4%float = Some (9, 101)%Z /\
  Grid.dims 1000 (Rounded.binary64 (1 / 10)) = ret (11, 99)%Z /\
  (forall (P : Z) (r : float) (Nx Ny : Z),
     Float64.dims P r = Some (Nx, Ny) -> Z.odd Nx = true /\ Z.odd Ny = true) /\
  (forall P : Z, (Z.abs P < 2 ^ 53)%Z ->
     exists msg, Rounded.dims rnd P 0 = raise (ZeroDivisionError msg)).
Proof.
  assert (Hmain : forall f : R -> R, Rounded.standard f ->
            Rounded.dims f 10000 (f (8 / 12)) = ret (81, 123)%Z).
  { intros f H.
    destruct two_pow_53_large as [H53 H30].
    assert (H53' : 0 < / IZR (2 ^ 53)) by (apply Rinv_0_lt_compat, IZR_lt; lia).
    assert (Hbig : 20000 <= IZR (2 ^ 53)) by (apply (IZR_le 20000); lia).
    pose proof (rounded_aspect_ratio f H) as Hr.
    set (r := f (8 / 12)) in *.
    assert (Hr0 : 0 < r) by lra.
    (* the exact quotient *)
    assert (Hq0 : 14990 <= IZR 10000 / r <= 15010).
    { split.
      - apply Rmult_le_reg_r with r; [exact Hr0 |].
        unfold Rdiv. rewrite Rmult_assoc, Rinv_l by lra. lra.
      - apply Rmult_le_reg_r with r; [exact Hr0 |].
        unfold Rdiv. rewrite Rmult_assoc, Rinv_l by lra. lra. }
    set (q0 := IZR 10000 / r) in *.
    assert (Hq : 14988 <= f q0 <= 15012).
    { pose proof (standard_rel_upper f q0 H ltac:(lra)) as Hb.
      assert (0 <= q0 / IZR (2 ^ 53) <= 2).
      { unfold Rdiv. split; [apply Rmult_le_pos; lra |]. nra. }
      lra. }
    set (q := f q0) in *.
    assert (Hs0 : 122 <= sqrt q <= 1226 / 10).
    { split.
      - rewrite <- (sqrt_square 122) by lra. apply sqrt_le_1_alt. lra.
      - rewrite <- (sqrt_square (1226 / 10)) by lra. apply sqrt_le_1_alt. lra. }
    assert (Hs : 122 <= f (sqrt q) < 123).
    { split.
      - apply (standard_above_int f (sqrt q) 122 H); [lia | tauto].
      - pose proof (standard_rel_upper f (sqrt q) H ltac:(lra)) as Hb.
        assert (sqrt q / IZR (2 ^ 53) <= 1 / 10).
        { unfold Rdiv. nra. }
        lra. }
    unfold Rounded.dims.
    rewrite rounded_Ny_ok by (assumption || lia). rewrite bind_ret_l.
    fold q0 q.
    rewrite (Zfloor_eq 122 (f (sqrt q))) by lra.
    cbv zeta. change (if is_even 122 then (122 + 1)%Z else 122%Z) with 123%Z.
    unfold Rounded.Nx.
    rewrite rounded_div_ok by lra. rewrite bind_ret_l.
    rewrite rounded_int_quot by (assumption || lia).
    rewrite bind_ret_l. reflexivity. }
  intros H. split; [| split; [| split; [| split; [| split; [| split; [| split]]]]]].
  - exact (Hmain rnd H).
  - exact (Hmain Rounded.binary64 binary64_standard).
  - exact float64_dims.
  - exact rounded_dims_at_tenth.
  - exact float64_dims_at_tenth.
  - exact exact_dims_at_tenth.
  - exact float64_dims_odd.
  - intros P _. eexists. unfold Rounded.dims, Rounded.Ny.
    rewrite rounded_div_zero. reflexivity.
Qed.

Lemma script_grid_in_binary64_witness :
  Rounded.dims (fun x : R => x) Script.Npc (8 / 12) = ret (81, 123)%Z /\
  Rounded.dims Rounded.binary64 Script.Npc (Rounded.binary64 (8 / 12)) = ret (81, 123)%Z /\
  Float64.dims Script.Npc Float64.aspect_ratio = Some (81, 123)%Z /\
  Rounded.dims Rounded.binary64 1000 (Rounded.binary64 (1 / 10)) = ret (9, 101)%Z /\
  Float64.dims 1000 0x1.999999999999ap-4%float = Some (9, 101)%Z /\
  Grid.dims 1000 (Rounded.binary64 (1 / 10)) = ret (11, 99)%Z /\
  (forall (P : Z) (r : float) (Nx Ny : Z),
     Float64.dims P r = Some (Nx, Ny) -> Z.odd Nx = true /\ Z.odd Ny = true) /\
  (forall P : Z, (Z.abs P < 2 ^ 53)%Z ->
     exists msg, Rounded.dims (fun x : R => x) P 0 = raise (ZeroDivisionError msg)).
Proof.
  apply (script_grid_in_binary64 (fun x : R => x)).
  constructor.
  - intros x y _ Hxy. exact Hxy.
  - reflexivity.
  - intros x [Hlo Hhi].
    assert (0 < / IZR (2 ^ 30)) by (apply Rinv_0_lt_compat, IZR_lt; lia).
    assert (0 < / IZR (2 ^ 53)) by (apply Rinv_0_lt_compat, IZR_lt; lia).
    replace (x - x) with 0 by ring. rewrite Rabs_R0.
    unfold Rdiv. apply Rmult_le_pos; lra.
Defined.

(** ** Evenly spaced samples *)

Lemma np_linspace_length (start stop : R) (num : Z) :
  List.length (np_linspace start stop num) = Z.to_nat num.
Proof. unfold np_linspace. now rewrite length_map, length_seq. Qed.

Lemma np_linspace_nth (start stop : R) (num : Z) (i : nat) :
  (i < Z.to_nat num)%nat ->
  nth i (np_linspace start stop num) 0 =
  start + INR i * ((stop - start) / (IZR num - 1)).
Proof.
  intros Hi. unfold np_linspace.
  set (f := fun k : nat => start + INR k * ((stop - start) / (IZR num - 1))).
  rewrite (nth_indep (map f (seq 0 (Z.to_nat num))) 0 (f 0%nat))
    by (now rewrite length_map, length_seq).
  rewrite map_nth. rewrite seq_nth by exact Hi. reflexivity.
Qed.

Lemma linspace_mid (start stop : R) (num : Z) :
  (2 <= num)%Z -> Z.odd num = true ->
  (Z.to_nat ((num - 1) / 2) < Z.to_nat num)%nat /\
  nth (Z.to_nat ((num - 1) / 2)) (np_linspace start stop num) 0 = (start + stop) / 2.
Proof.
  intros Hnum Hodd.
  assert (Hlt : (Z.to_nat ((num - 1) / 2) < Z.to_nat num)%nat).
  { apply Z2Nat.inj_lt; try lia;
      [apply Z.div_pos; lia | apply Z.div_lt_upper_bound; lia]. }
  split; [exact Hlt |].
  rewrite np_linspace_nth by exact Hlt.
  rewrite INR_IZR_INZ, Z2Nat.id by (apply Z.div_pos; lia).
  apply Z.odd_spec in Hodd. destruct Hodd as (k & Hk).
  replace ((num - 1) / 2)%Z with k
    by (subst num; replace (2 * k + 1 - 1)%Z with (k * 2)%Z by lia;
        now rewrite Z.div_mul by lia).
  subst num. rewrite plus_IZR, mult_IZR.
  assert (Hk1 : 1 <= IZR k) by (apply IZR_le; lia).
  field. lra.
Qed.

Lemma linspace_samples (start stop : R) (num : Z) :
  (2 <= num)%Z ->
  nth 0 (np_linspace start stop num) 0 = start /\
  nth (Z.to_nat (num - 1)) (np_linspace start stop num) 0 = stop /\
  (forall i : nat, (S i < Z.to_nat num)%nat ->
     nth (S i) (np_linspace start stop num) 0 - nth i (np_linspace start stop num) 0
     = (stop - start) / (IZR num - 1)).
Proof.
  intros Hnum.
  assert (HnumR : 2 <= IZR num) by now apply IZR_le.
  split; [| split].
  - rewrite np_linspace_nth by lia. simpl. lra.
  - rewrite np_linspace_nth by lia.
    rewrite INR_IZR_INZ, Z2Nat.id by lia. rewrite minus_IZR. field. lra.
  - intros i Hi. rewrite !np_linspace_nth by lia. rewrite S_INR. lra.
Qed.

Lemma linspace_within (start stop : R) (num : Z) (v : R) :
  (1 <= num)%Z -> start <= stop ->
  In v (np_linspace start stop num) -> start <= v <= stop.
Proof.
  intros Hnum Hle Hin.
  destruct (Z.eq_dec num 1) as [-> | Hne].
  - unfold np_linspace in Hin. simpl in Hin. destruct Hin as [<- | []]. lra.
  - apply (linspace_bounds start stop num); [lia | exact Hle | exact Hin].
Qed.

Lemma list_prod_nth {T U : Type} (l : list T) (l' : list U) (d : T) (d' : U) (i j : nat) :
  (i < List.length l)%nat -> (j < List.length l')%nat ->
  nth (i * List.length l' + j) (list_prod l l') (d, d') = (nth i l d, nth j l' d').
Proof.
  revert i. induction l as [| a l IH]; intros i Hi Hj; [simpl in Hi; lia |].
  cbn [list_prod]. destruct i as [| i].
  - simpl Nat.add. rewrite app_nth1 by (now rewrite length_map).
    rewrite (nth_indep _ (d, d') (a, d')) by (now rewrite length_map).
    rewrite (map_nth (fun y : U => (a, y))). reflexivity.
  - rewrite app_nth2 by (rewrite length_map; simpl; lia).
    rewrite length_map.
    replace (S i * List.length l' + j - List.length l')%nat
      with (i * List.length l' + j)%nat by (simpl; lia).
    simpl in Hi. rewrite IH by lia. reflexivity.
Qed.

(** X2: the control coordinates [np.linspace(0.5, L - 0.5, N)] of lines
    93--94, for [N >= 2] samples on a span [L >= 1].  There are [N] of
    them, in non-decreasing order; the first is the 0.5 margin and the
    last the far margin [L - 0.5], so that every coordinate keeps 0.5 from
    both edges.  With [N = 1] the only coordinate is 0.5.  The y
    coordinates are built the same way. *)
Theorem control_coordinates (L : R) (N : Z) :
  (2 <= N)%Z -> 1 <= L ->
  List.length (Grid.x_control L N) = Z.to_nat N /\
  nth 0 (Grid.x_control L N) 0 = 1 / 2 /\
  nth (Z.to_nat (N - 1)) (Grid.x_control L N) 0 = L - 1 / 2 /\
  (forall i : nat, (S i < Z.to_nat N)%nat ->
     nth i (Grid.x_control L N) 0 <= nth (S i) (Grid.x_control L N) 0) /\
  (forall v : R, In v (Grid.x_control L N) -> 1 / 2 <= v <= L - 1 / 2) /\
  Grid.x_control L 1 = [1 / 2] /\
  Grid.y_control L N = Grid.x_control L N.
Proof.
  intros HN HL. unfold Grid.y_control, Grid.x_control.
  destruct (linspace_samples 0.5 (L - 0.5) N HN) as (H0 & H1 & Hstep).
  assert (HNR : 2 <= IZR N) by now apply IZR_le.
  split; [apply np_linspace_length |].
  split; [rewrite H0; lra |]. split; [rewrite H1; lra |].
  split; [| split; [| split; [| reflexivity]]].
  - intros i Hi. specialize (Hstep i Hi).
    assert (0 <= (L - 0.5 - 0.5) / (IZR N - 1)).
    { apply Rmult_le_pos; [lra | left; apply Rinv_0_lt_compat; lra]. }
    lra.
  - intros v Hv. apply linspace_within in Hv; [| lia | lra]. lra.
  - unfold np_linspace. simpl. f_equal. lra.
Qed.

Lemma control_coordinates_witness :
  List.length (Grid.x_control 8 81) = Z.to_nat 81 /\
  nth 0 (Grid.x_control 8 81) 0 = 1 / 2 /\
  nth (Z.to_nat (81 - 1)) (Grid.x_control 8 81) 0 = 8 - 1 / 2 /\
  (forall i : nat, (S i < Z.to_nat 81)%nat ->
     nth i (Grid.x_control 8 81) 0 <= nth (S i) (Grid.x_control 8 81) 0) /\
  (forall v : R, In v (Grid.x_control 8 81) -> 1 / 2 <= v <= 8 - 1 / 2) /\
  Grid.x_control 8 1 = [1 / 2] /\
  Grid.y_control 8 81 = Grid.x_control 8 81.
Proof.
  apply (control_coordinates 8 81); [lia | lra].
Defined.

(** ** The lattice of control points *)

(** X3: the control points of line 96, for dimensions [Nx, Ny >= 1] on a
    slab with both spans at least 1.  They are [Nx * Ny] in number, the
    count line 91 prints; they are listed column by column, the point at
    index [i * Ny + j] being [(x_control[i], y_control[j])]; and every one
    of them keeps the 0.5 margin from each edge. *)
Theorem control_points_lattice (Lx Ly : R) (Nx Ny : Z) :
  (1 <= Nx)%Z -> (1 <= Ny)%Z -> 1 <= Lx -> 1 <= Ly ->
  List.length (Grid.control_points Lx Ly Nx Ny) = Z.to_nat (Nx * Ny) /\
  (forall i j : nat, (i < Z.to_nat Nx)%nat -> (j < Z.to_nat Ny)%nat ->
     nth (i * Z.to_nat Ny + j) (Grid.control_points Lx Ly Nx Ny) (0, 0) =
     (nth i (Grid.x_control Lx Nx) 0, nth j (Grid.y_control Ly Ny) 0)) /\
  (forall x y : R,
     In (x, y) (Grid.control_points Lx Ly Nx Ny) ->
     1 / 2 <= x <= Lx - 1 / 2 /\ 1 / 2 <= y <= Ly - 1 / 2).
Proof.
  intros HNx HNy HLx HLy.
  unfold Grid.control_points, Grid.x_control, Grid.y_control.
  split; [| split].
  - rewrite length_prod, !np_linspace_length. rewrite Z2Nat.inj_mul by lia. reflexivity.
  - intros i j Hi Hj.
    rewrite <- (np_linspace_length 0.5 (Ly - 0.5) Ny) at 1.
    apply list_prod_nth; now rewrite np_linspace_length.
  - intros x y Hin. apply in_prod_iff in Hin. destruct Hin as [Hx Hy].
    apply linspace_within in Hx; [| lia | lra].
    apply linspace_within in Hy; [| lia | lra].
    split; lra.
Qed.

Lemma control_points_lattice_witness :
  List.length (Grid.control_points 8 12 81 123) = Z.to_nat (81 * 123) /\
  (forall i j : nat, (i < Z.to_nat 81)%nat -> (j < Z.to_nat 123)%nat ->
     nth (i * Z.to_nat 123 + j) (Grid.control_points 8 12 81 123) (0, 0) =
     (nth i (Grid.x_control 8 81) 0, nth j (Grid.y_control 12 123) 0)) /\
  (forall x y : R,
     In (x, y) (Grid.control_points 8 12 81 123) ->
     1 / 2 <= x <= 8 - 1 / 2 /\ 1 / 2 <= y <= 12 - 1 / 2).
Proof.
  apply (control_points_lattice 8 12 81 123); try lia; lra.
Defined.

(** ** The shape of the eccentricity profile, the influence and the target *)

Lemma unit_parabola_bounds (u : R) : 0 <= u <= 1 -> 0 <= u * (1 - u) <= 1 / 4.
Proof.
  intros Hu. pose proof (Rle_0_sqr (u - 1 / 2)) as Q. unfold Rsqr in Q.
  split; [apply Rmult_le_pos; lra | lra].
Qed.

Lemma ratio_in_unit (y L : R) : 0 < L -> 0 <= y <= L -> 0 <= y / L <= 1.
Proof.
  intros HL [H0 H1]. split.
  - apply Rmult_le_pos; [lra | left; now apply Rinv_0_lt_compat].
  - apply Rmult_le_reg_r with L; [exact HL |].
    unfold Rdiv. rewrite Rmult_assoc, Rinv_l by lra. lra.
Qed.

Lemma tendon_profile_upper (y L e0 : R) :
  0 < L -> 0 <= e0 -> 0 <= y <= L -> Script.tendon_profile y L e0 <= e0.
Proof.
  intros HL He Hy. unfold Script.tendon_profile.
  pose proof (unit_parabola_bounds (y / L) (ratio_in_unit y L HL Hy)) as Hv.
  set (v := y / L * (1 - y / L)) in *.
  replace (4 * e0 * (y / L) * (1 - y / L)) with (4 * e0 * v) by (unfold v; ring).
  nra.
Qed.

Lemma tendon_profile_mirror (y L e0 : R) :
  L <> 0 -> Script.tendon_profile (L - y) L e0 = Script.tendon_profile y L e0.
Proof. intros HL. unfold Script.tendon_profile. field. exact HL. Qed.

(** X4: the parabolic tendon profile, for a positive span and a
    non-negative eccentricity [e0]: on the span it lies between 0 and
    [e0]; it is mirror-symmetric about midspan; beyond either support it
    is not positive. *)
Theorem tendon_profile_shape (y L e0 : R) :
  0 < L -> 0 <= e0 ->
  (0 <= y <= L -> 0 <= Script.tendon_profile y L e0 <= e0) /\
  Script.tendon_profile (L - y) L e0 = Script.tendon_profile y L e0 /\
  (y < 0 \/ L < y -> Script.tendon_profile y L e0 <= 0).
Proof.
  intros HL He.
  split; [| split].
  - intros Hy. split; [now apply tendon_profile_nonneg | now apply tendon_profile_upper].
  - apply tendon_profile_mirror. lra.
  - intros Hout. unfold Script.tendon_profile.
    assert (Hv : y / L * (1 - y / L) <= 0).
    { replace (1 - y / L) with ((L - y) / L) by (field; lra).
      assert (HiL : 0 < / L) by now apply Rinv_0_lt_compat.
      unfold Rdiv. destruct Hout as [Hneg | Hpos].
      - assert (y * / L <= 0) by nra. assert (0 <= (L - y) * / L) by nra. nra.
      - assert (0 <= y * / L) by nra. assert ((L - y) * / L <= 0) by nra. nra. }
    replace (4 * e0 * (y / L) * (1 - y / L)) with (4 * e0 * (y / L * (1 - y / L))) by ring.
    nra.
Qed.

Lemma tendon_profile_shape_witness :
  (0 <= 3 <= 12 -> 0 <= Script.tendon_profile 3 12 (3 / 20) <= 3 / 20) /\
  Script.tendon_profile (12 - 3) 12 (3 / 20) = Script.tendon_profile 3 12 (3 / 20) /\
  (3 < 0 \/ 12 < 3 -> Script.tendon_profile 3 12 (3 / 20) <= 0).
Proof.
  apply (tendon_profile_shape 3 12 (3 / 20)); lra.
Defined.

Lemma kernel_at_most_1 (d sigma : R) :
  sigma <> 0 -> exp (- d ^ 2 / (2 * sigma ^ 2)) <= 1.
Proof.
  intros Hs. rewrite <- exp_0. apply exp_le_mono.
  assert (Hden : 0 < 2 * sigma ^ 2).
  { assert (0 < sigma ^ 2) by (simpl; rewrite Rmult_1_r; now apply Rsqr_pos_lt). lra. }
  assert (Hi : 0 < / (2 * sigma ^ 2)) by now apply Rinv_0_lt_compat.
  unfold Rdiv. assert (0 <= d ^ 2) by (simpl; nra). nra.
Qed.

(** X5: the influence of a tendon at a control point of the slab, with the
    spread 0.75 the script uses: for a control point on the span and no
    farther from the tendon than the slab is wide, it is positive, at
    least [exp (-512 / 9)] (the kernel at distance [Lx]) and at most 1.75
    (the eccentricity factor at midspan, [1 + e_design / (t_slab / 2)]);
    the upper bound is met at midspan right on the tendon; and the value
    is the same on either side of the tendon and on either side of
    midspan. *)
Theorem influence_range_and_symmetry (xc x y : R) :
  Rabs (x - xc) <= Script.Lx -> 0 <= y <= Script.Ly ->
  0 < Script.tendon_influence_with_eccentricity xc x y Script.sigma_default <= 7 / 4 /\
  exp (- (512 / 9)) <= Script.tendon_influence_with_eccentricity xc x y Script.sigma_default /\
  Script.tendon_influence_with_eccentricity xc xc (Script.Ly / 2) Script.sigma_default
    = 7 / 4 /\
  Script.tendon_influence_with_eccentricity xc (xc - (x - xc)) y Script.sigma_default =
    Script.tendon_influence_with_eccentricity xc x y Script.sigma_default /\
  Script.tendon_influence_with_eccentricity xc x (Script.Ly - y) Script.sigma_default =
    Script.tendon_influence_with_eccentricity xc x y Script.sigma_default.
Proof.
  intros Hdx Hy.
  assert (Hs : Script.sigma_default <> 0) by (rewrite sigma_default_val; lra).
  assert (Hlow : exp (- (512 / 9))
                 <= exp (- Rabs (x - xc) ^ 2 / (2 * Script.sigma_default ^ 2))).
  { apply exp_le_mono. rewrite sigma_default_val. rewrite Lx_val in Hdx.
    pose proof (Rabs_pos (x - xc)) as Hd0.
    assert (Rabs (x - xc) ^ 2 <= 64) by (simpl; nra).
    lra. }
  set (sigma := Script.sigma_default) in *.
  assert (HLy : 0 < Script.Ly) by (rewrite Ly_val; lra).
  assert (He : 0 <= Script.e_design) by (rewrite e_design_val; lra).
  pose proof (tendon_profile_upper y Script.Ly Script.e_design HLy He Hy) as Hb.
  pose proof (tendon_profile_mirror y Script.Ly Script.e_design ltac:(lra)) as Hsym.
  pose proof (eccentricity_factor_ge_1 y Hy) as Hf.
  unfold Script.tendon_influence_with_eccentricity. cbv zeta.
  pose proof (exp_pos (- Rabs (x - xc) ^ 2 / (2 * sigma ^ 2))) as Hk0.
  pose proof (kernel_at_most_1 (Rabs (x - xc)) sigma Hs) as Hk1.
  split; [| split; [| split; [| split]]].
  - assert (Hfu : 1 + Script.tendon_profile y Script.Ly Script.e_design / (Script.t_slab / 2)
                  <= 7 / 4).
    { rewrite t_slab_val. pose proof e_design_val as Hev. lra. }
    split; [apply Rmult_lt_0_compat; lra | nra].
  - pose proof (exp_pos (- (512 / 9))) as Hp. nra.
  - replace (xc - xc) with 0 by ring. rewrite Rabs_R0.
    replace (- 0 ^ 2 / (2 * sigma ^ 2)) with 0 by (simpl; unfold Rdiv; ring).
    rewrite exp_0. unfold Script.tendon_profile.
    rewrite Ly_val, e_design_val, t_slab_val. field.
  - replace (xc - (x - xc) - xc) with (- (x - xc)) by ring. now rewrite Rabs_Ropp.
  - now rewrite Hsym.
Qed.

Lemma influence_range_and_symmetry_witness :
  0 < Script.tendon_influence_with_eccentricity 1 2 3 Script.sigma_default <= 7 / 4 /\
  exp (- (512 / 9)) <= Script.tendon_influence_with_eccentricity 1 2 3 Script.sigma_default /\
  Script.tendon_influence_with_eccentricity 1 1 (Script.Ly / 2) Script.sigma_default
    = 7 / 4 /\
  Script.tendon_influence_with_eccentricity 1 (1 - (2 - 1)) 3 Script.sigma_default =
    Script.tendon_influence_with_eccentricity 1 2 3 Script.sigma_default /\
  Script.tendon_influence_with_eccentricity 1 2 (Script.Ly - 3) Script.sigma_default =
    Script.tendon_influence_with_eccentricity 1 2 3 Script.sigma_default.
Proof.
  apply (influence_range_and_symmetry 1 2 3).
  - rewrite Lx_val. replace (2 - 1) with 1 by ring. rewrite Rabs_R1. lra.
  - rewrite Ly_val; lra.
Defined.

(** X6: the target stress of lines 125--126.  On the span it lies between
    0 and [sigma_max]; it vanishes at both supports and equals [sigma_max]
    at midspan; it is mirror-symmetric about midspan and negative beyond
    the supports; and it is the tendon profile rescaled: the two parabolas
    have the same shape. *)
Theorem target_stress_shape (y : R) :
  (0 <= y <= Script.Ly -> 0 <= Script.sigma_target y <= Script.sigma_max) /\
  Script.sigma_target 0 = 0 /\
  Script.sigma_target Script.Ly = 0 /\
  Script.sigma_target (Script.Ly / 2) = Script.sigma_max /\
  Script.sigma_target (Script.Ly - y) = Script.sigma_target y /\
  (y < 0 \/ Script.Ly < y -> Script.sigma_target y < 0) /\
  Script.sigma_target y * Script.e_design =
    Script.sigma_max * Script.tendon_profile y Script.Ly Script.e_design.
Proof.
  unfold Script.sigma_target, Script.yc, Script.b', Script.tendon_profile.
  rewrite sigma_max_val, Ly_val, e_design_val.
  assert (Heq : forall z : R,
            1 - (z - 12 / 2) ^ 2 / (12 / 2) ^ 2 = z * (12 - z) / 36)
    by (intros z; field).
  rewrite !Heq.
  split; [| split; [| split; [| split; [| split; [| split]]]]]; try (field; fail).
  - intros Hy. pose proof (Rle_0_sqr (y - 6)) as Q. unfold Rsqr in Q.
    split; nra.
  - intros [Hneg | Hpos]; nra.
Qed.

(** ** What the precheck decides *)

Lemma Forall2_Rle_repeat (a c : R) (k : nat) :
  a <= c -> Forall2 Rle (repeat a k) (repeat c k).
Proof. intros H. induction k; simpl; constructor; assumption. Qed.

Lemma scale_below_cap (n : list R) (s c : R) :
  0 <= s -> Forall (fun v => v <= c) n ->
  Forall2 Rle (scale n s) (repeat (c * s) (List.length n)).
Proof.
  intros Hs H. induction H as [| v n Hv _ IH]; simpl; constructor.
  - now apply Rmult_le_compat_r.
  - exact IH.
Qed.

(** The precheck passes as soon as some vector dominated by the all-cap
    vector meets the targets. *)
Lemma precheck_passes_if_dominated
  (A : list (list R)) (load_vector tendon_x_positions : list R)
  (n_cord_max : Z) (stress_per_tendon : R) (v : list R) :
  Forall (Forall (Rle 0)) A ->
  stress_constraint A v load_vector ->
  Forall2 Rle v (repeat (IZR n_cord_max * stress_per_tendon)
                        (List.length tendon_x_positions)) ->
  precheck A load_vector tendon_x_positions n_cord_max stress_per_tendon =
    ([Print PrecheckHeader; Print PrecheckSatisfied], Ok tt).
Proof.
  intros HA (u & Hu & Hge) Hdom.
  destruct (matmul_inv _ _ _ Hu) as [Hrows ->].
  rewrite (Forall2_length_eq _ _ _ Hdom), repeat_length in Hrows.
  set (full := repeat (IZR n_cord_max * stress_per_tendon) (List.length tendon_x_positions)) in *.
  assert (Hfull : outcome (induced_stress_full A tendon_x_positions n_cord_max stress_per_tendon)
                  = Ok (map (fun row => dot row full) A)).
  { unfold induced_stress_full. cbv zeta. rewrite scale_int_full. fold full.
    rewrite matmul_ok by (unfold full; now rewrite repeat_length). reflexivity. }
  pose proof (Forall2_Rle_Rge_trans _ _ _ (matmul_mono A _ _ HA Hdom) Hge) as Hge'.
  apply precheck_pass.
  rewrite (precheck_violations_ok _ _ _ _ _ _ Hfull (Forall2_length_eq _ _ _ Hge')).
  now rewrite Forall2_no_violation.
Qed.

(** X7: the precheck is exact.  For a non-negative influence matrix and a
    non-negative stress per strand, if the linear program of lines
    156--162 has any feasible point at all, the precheck passes; so
    whenever the precheck stops the run, the program really has no
    feasible point. *)
Theorem precheck_abort_means_infeasible
  (A : list (list R)) (load_vector tendon_x_positions : list R)
  (n_cord_max : Z) (stress_per_tendon : R) :
  Forall (Forall (Rle 0)) A -> 0 <= stress_per_tendon ->
  ((exists n, feasible (problem A load_vector tendon_x_positions
                                n_cord_max stress_per_tendon) n) ->
   precheck A load_vector tendon_x_positions n_cord_max stress_per_tendon =
     ([Print PrecheckHeader; Print PrecheckSatisfied], Ok tt)) /\
  (forall e : exn,
     outcome (precheck A load_vector tendon_x_positions n_cord_max stress_per_tendon)
       = Raise e ->
     forall n, ~ feasible (problem A load_vector tendon_x_positions
                                   n_cord_max stress_per_tendon) n).
Proof.
  intros HA Hs.
  assert (Hpass : (exists n, feasible (problem A load_vector tendon_x_positions
                                n_cord_max stress_per_tendon) n) ->
     precheck A load_vector tendon_x_positions n_cord_max stress_per_tendon =
     ([Print PrecheckHeader; Print PrecheckSatisfied], Ok tt)).
  { intros (n & Hlen & Hc & Hb).
    unfold problem in Hlen, Hc, Hb. cbn [lp_dim lp_A lp_s lp_rhs lp_ub] in Hlen, Hc, Hb.
    apply (precheck_passes_if_dominated _ _ _ _ _ (scale n stress_per_tendon) HA Hc).
    rewrite <- Hlen. apply scale_below_cap; [exact Hs |].
    unfold within_bounds in Hb. eapply Forall_impl; [| exact Hb].
    intros v Hv. simpl in Hv. tauto. }
  split; [exact Hpass |].
  intros e He n Hn. rewrite Hpass in He by (now exists n). discriminate He.
Qed.

Lemma precheck_abort_means_infeasible_witness :
  ((exists n, feasible (problem [[1]] [2] [1 / 2] 1 1) n) ->
   precheck [[1]] [2] [1 / 2] 1 1 =
     ([Print PrecheckHeader; Print PrecheckSatisfied], Ok tt)) /\
  (forall e : exn,
     outcome (precheck [[1]] [2] [1 / 2] 1 1) = Raise e ->
     forall n, ~ feasible (problem [[1]] [2] [1 / 2] 1 1) n).
Proof.
  apply (precheck_abort_means_infeasible [[1]] [2] [1 / 2] 1 1).
  - repeat constructor. lra.
  - lra.
Defined.

(** X8: the precheck is monotone in the strand cap.  For a non-negative
    influence matrix and a non-negative stress per strand, a precheck
    that passes at one cap passes at every larger cap. *)
Theorem precheck_monotone_in_cap
  (A : list (list R)) (load_vector tendon_x_positions : list R)
  (cap cap' : Z) (stress_per_tendon : R) :
  Forall (Forall (Rle 0)) A -> 0 <= stress_per_tendon -> (cap <= cap')%Z ->
  outcome (precheck A load_vector tendon_x_positions cap stress_per_tendon) = Ok tt ->
  precheck A load_vector tendon_x_positions cap' stress_per_tendon =
    ([Print PrecheckHeader; Print PrecheckSatisfied], Ok tt).
Proof.
  intros HA Hs Hcap Hpass.
  apply precheck_ok_inv in Hpass.
  assert (Hout : outcome (precheck_violations A load_vector tendon_x_positions
                            cap stress_per_tendon) = Ok 0%nat)
    by (rewrite Hpass; reflexivity).
  destruct (precheck_violations_inv _ _ _ _ _ _ Hout) as (u & Hu & Hlen & Hk).
  unfold induced_stress_full in Hu. cbv zeta in Hu. rewrite scale_int_full in Hu.
  apply (precheck_passes_if_dominated _ _ _ _ _
           (repeat (IZR cap * stress_per_tendon) (List.length tendon_x_positions)) HA).
  - exists u. split; [exact Hu |].
    apply no_violation_Forall2; [exact Hlen | now symmetry].
  - apply Forall2_Rle_repeat. apply Rmult_le_compat_r; [exact Hs | now apply IZR_le].
Qed.

Lemma precheck_monotone_in_cap_witness :
  precheck [[1]] [2] [1 / 2] 3 1 =
    ([Print PrecheckHeader; Print PrecheckSatisfied], Ok tt).
Proof.
  apply (precheck_monotone_in_cap [[1]] [2] [1 / 2] 2 3 1).
  - repeat constructor. lra.
  - lra.
  - lia.
  - assert (Hv : precheck_violations [[1]] [2] [1 / 2] 2 1 = ret 0%nat).
    { rewrite (precheck_violations_ok _ _ _ _ _ [1 * (2 * 1) + 0]) by reflexivity.
      rewrite Forall2_no_violation; [reflexivity | repeat constructor; lra]. }
    rewrite (precheck_pass _ _ _ _ _ Hv). reflexivity.
Defined.

(** ** What a returned result satisfies *)

Lemma round_and_verify_inv
  (A : list (list R)) (load_vector : list R) (stress_per_tendon : R)
  (n_value : list R) (o : outputs) :
  outcome (round_and_verify A load_vector stress_per_tendon n_value) = Ok o ->
  exists u,
    outcome (matmul A (scale_int (np_ceil_int n_value) stress_per_tendon)) = Ok u /\
    List.length u = List.length load_vector /\
    o = mk_outputs (np_ceil_int n_value) u (differences load_vector u)
                   (np_sum_bool (less_flags u load_vector)).
Proof.
  intros Ho.
  destruct (matmul A (scale_int (np_ceil_int n_value) stress_per_tendon))
    as [tr [u | e]] eqn:Em.
  - assert (Hu : outcome (matmul A (scale_int (np_ceil_int n_value) stress_per_tendon)) = Ok u)
      by (rewrite Em; reflexivity).
    destruct (Nat.eq_dec (List.length u) (List.length load_vector)) as [Hlen | Hne].
    + rewrite (round_and_verify_ok _ _ _ _ u) in Ho;
        [| rewrite Em; reflexivity | exact Hlen].
      unfold outcome in Ho. simpl in Ho. injection Ho as <-.
      exists u. split; [reflexivity | split; [exact Hlen | reflexivity]].
    + exfalso. unfold round_and_verify in Ho. cbv zeta in Ho.
      rewrite Em in Ho. apply matmul_ret in Hu. rewrite Em in Hu.
      rewrite Hu, bind_ret_l in Ho. unfold np_sub, same_length in Ho.
      destruct (Nat.eqb_spec (List.length load_vector) (List.length u)) as [He | _];
        [congruence | discriminate Ho].
  - exfalso. unfold round_and_verify in Ho. cbv zeta in Ho. rewrite Em in Ho.
    discriminate Ho.
Qed.

Lemma no_violation_iff_residual (u v : list R) :
  List.length u = List.length v ->
  (np_sum_bool (less_flags u v) = 0%nat <-> Forall (fun r => r <= 0) (differences v u)).
Proof.
  revert v. induction u as [| a u IH]; intros [| c v] Hlen; try discriminate.
  - split; [constructor | reflexivity].
  - simpl in Hlen. specialize (IH v ltac:(lia)).
    unfold np_sum_bool, less_flags, differences in *. simpl.
    destruct (Rlt_dec a c) as [Hlt | Hn]; simpl.
    + split; [discriminate |]. intros H. inversion H; subst. lra.
    + rewrite IH. split.
      * intros H. constructor; [lra | exact H].
      * intros H. now inversion H.
Qed.

(** X9: what the core returns, whenever it returns, on arrays of matching
    shape: a non-empty influence matrix with one row per target, a cap
    that fits in an int64 and a solver whose values do.  The precheck has
    passed and the solver has reported [cp.OPTIMAL]; the strand vector is
    the ceiling of the solver's value, cast exactly; the induced stress is
    the influence matrix applied to it; the residual is target minus
    induced, one entry per control point; the violation count is the
    number of control points with induced below target; and it is zero
    exactly when no residual is positive. *)
Theorem returned_outputs_are_consistent
  (solve : lp_problem -> solver_outcome) (A : list (list R))
  (load_vector tendon_x_positions : list R) (n_cord_max : Z)
  (stress_per_tendon : R) (o : outputs) :
  let lp := problem A load_vector tendon_x_positions n_cord_max stress_per_tendon in
  A <> [] -> tendon_x_positions <> [] ->
  List.length load_vector = List.length A ->
  (INT64_MIN <= n_cord_max <= INT64_MAX)%Z ->
  Forall fits_int64 (value (solve lp)) ->
  outcome (core solve A load_vector tendon_x_positions n_cord_max stress_per_tendon) = Ok o ->
  outcome (precheck A load_vector tendon_x_positions n_cord_max stress_per_tendon) = Ok tt /\
  status (solve lp) = OPTIMAL /\
  x_opt o = np_ceil_astype_int (value (solve lp)) /\
  outcome (matmul A (scale_int (x_opt o) stress_per_tendon)) = Ok (induced_stress o) /\
  final_stress o = differences load_vector (induced_stress o) /\
  List.length (induced_stress o) = List.length load_vector /\
  List.length (x_opt o) = List.length tendon_x_positions /\
  n_violations o = np_sum_bool (less_flags (induced_stress o) load_vector) /\
  (n_violations o = 0%nat <-> Forall (fun r => r <= 0) (final_stress o)).
Proof.
  intros lp HA Htx HlenA Hcap Hfit Ho.
  rewrite (ceil_cast_exact _ Hfit).
  destruct (outcome (precheck A load_vector tendon_x_positions n_cord_max stress_per_tendon))
    as [[] | e] eqn:Ep.
  2:{ unfold core in Ho. rewrite (outcome_bind_raise _ e) in Ho by exact Ep. discriminate Ho. }
  pose proof (precheck_ok_inv _ _ _ _ _ Ep) as Hv.
  destruct (String.eqb (status (solve lp)) OPTIMAL) eqn:Est.
  2:{ unfold lp in Est. rewrite (core_when_solver_fails solve _ _ _ _ _ Hv Est) in Ho.
      discriminate Ho. }
  unfold lp in Est. rewrite (core_when_solver_succeeds solve _ _ _ _ _ Hv Est) in Ho.
  unfold outcome at 1 in Ho. cbn [snd] in Ho.
  apply round_and_verify_inv in Ho. destruct Ho as (u & Hu & Hlen & ->).
  cbn [x_opt induced_stress final_stress n_violations].
  split; [reflexivity |]. split; [now apply String.eqb_eq |].
  split; [reflexivity |]. split; [exact Hu |]. split; [reflexivity |].
  split; [exact Hlen |]. split; [| split; [reflexivity |]].
  - (* the rows of a non-empty matrix fix the length of both vectors *)
    assert (Hv' : outcome (precheck_violations A load_vector tendon_x_positions
                             n_cord_max stress_per_tendon) = Ok 0%nat)
      by (rewrite Hv; reflexivity).
    destruct (precheck_violations_inv _ _ _ _ _ _ Hv') as (w & Hw & _).
    unfold induced_stress_full in Hw. cbv zeta in Hw.
    destruct (matmul_inv _ _ _ Hw) as [Hr1 _].
    destruct (matmul_inv _ _ _ Hu) as [Hr2 _].
    rewrite scale_int_length in Hr1, Hr2.
    unfold np_full in Hr1. rewrite repeat_length in Hr1.
    destruct A as [| row A']; [contradiction |].
    inversion Hr1; subst. inversion Hr2; subst. congruence.
  - now apply no_violation_iff_residual.
Qed.

Lemma returned_outputs_are_consistent_witness :
  let solve := fun _ : lp_problem => mk_outcome "optimal" [1] in
  let o := mk_outputs [1%Z] [1 * (1 * 1) + 0]
             (differences [1] [1 * (1 * 1) + 0]) 0 in
  let lp := problem [[1]] [1] [1 / 2] 1 1 in
  outcome (precheck [[1]] [1] [1 / 2] 1 1) = Ok tt /\
  status (solve lp) = OPTIMAL /\
  x_opt o = np_ceil_astype_int (value (solve lp)) /\
  outcome (matmul [[1]] (scale_int (x_opt o) 1)) = Ok (induced_stress o) /\
  final_stress o = differences [1] (induced_stress o) /\
  List.length (induced_stress o) = List.length [1] /\
  List.length (x_opt o) = List.length [1 / 2] /\
  n_violations o = np_sum_bool (less_flags (induced_stress o) [1]) /\
  (n_violations o = 0%nat <-> Forall (fun r => r <= 0) (final_stress o)).
Proof.
  apply (returned_outputs_are_consistent
           (fun _ : lp_problem => mk_outcome "optimal" [1])
           [[1]] [1] [1 / 2] 1 1
           (mk_outputs [1%Z] [1 * (1 * 1) + 0] (differences [1] [1 * (1 * 1) + 0]) 0)).
  - discriminate.
  - discriminate.
  - reflexivity.
  - unfold INT64_MIN, INT64_MAX. lia.
  - cbn [value]. unfold fits_int64, INT64_MIN, INT64_MAX.
    apply Forall_cons; [simpl; lra | apply Forall_nil].
  - assert (Hv : precheck_violations [[1]] [1] [1 / 2] 1 1 = ret 0%nat).
    { rewrite (precheck_violations_ok _ _ _ _ _ [1 * (1 * 1) + 0]) by reflexivity.
      rewrite Forall2_no_violation; [reflexivity | repeat constructor; lra]. }
    rewrite (core_when_solver_succeeds _ _ _ _ _ _ Hv) by reflexivity.
    cbn [value].
    assert (Hc : np_ceil_int [1] = [1%Z]).
    { unfold np_ceil_int. simpl. f_equal. apply (Zceil_eq 1). simpl. lra. }
    rewrite (round_and_verify_ok [[1]] [1] 1 [1] [1 * (1 * 1) + 0]);
      [| rewrite Hc; reflexivity | reflexivity].
    rewrite Hc. rewrite Forall2_no_violation by (repeat constructor; lra).
    reflexivity.
Defined.

(** ** The cost of rounding *)

Lemma Zceil_IZR (z : Z) : Zceil (IZR z) = z.
Proof. apply Zceil_eq. lra. Qed.

Lemma Zceil_within (v : R) (ub : Z) : 0 <= v <= IZR ub -> (0 <= Zceil v <= ub)%Z.
Proof.
  intros [H0 H1]. pose proof (Zceil_bound v) as [Hlo Hhi]. split.
  - destruct (Z_lt_le_dec (Zceil v) 0) as [Hneg | Hok]; [| exact Hok].
    assert (Zceil v <= -1)%Z as Hle by lia. apply IZR_le in Hle. lra.
  - destruct (Z_lt_le_dec ub (Zceil v)) as [Hgt | Hok]; [| exact Hok].
    assert (ub + 1 <= Zceil v)%Z as Hle by lia.
    apply IZR_le in Hle. rewrite plus_IZR in Hle. lra.
Qed.

Lemma sum_ceil_bounds (n : list R) :
  objective n <= IZR (np_sum_int (np_ceil_int n)) /\
  (n <> [] -> IZR (np_sum_int (np_ceil_int n)) < objective n + INR (List.length n)).
Proof.
  unfold objective, np_sum_int, np_ceil_int.
  induction n as [| v n [IHlo IHhi]].
  - split; [simpl; lra | intros H; contradiction].
  - pose proof (Zceil_bound v) as [Hlo Hhi].
    cbn [map fold_right]. rewrite plus_IZR.
    change (List.length (v :: n)) with (S (List.length n)). rewrite S_INR.
    split; [lra |]. intros _.
    destruct n as [| w n'].
    + simpl. simpl in IHlo. lra.
    + assert (w :: n' <> []) as Hne by discriminate. specialize (IHhi Hne). lra.
Qed.

Lemma np_sum_int_bounds (x : list Z) (ub : Z) :
  Forall (fun k => (0 <= k <= ub)%Z) x ->
  (0 <= np_sum_int x <= Z.of_nat (List.length x) * ub)%Z.
Proof.
  unfold np_sum_int. induction 1 as [| k x Hk _ IH]; [simpl; lia |].
  cbn [fold_right List.length]. rewrite Nat2Z.inj_succ. nia.
Qed.

Lemma ceil_within_bounds (cap : Z) (n : list R) :
  within_bounds cap n -> Forall (fun k => (0 <= k <= cap)%Z) (np_ceil_int n).
Proof.
  intros H. unfold np_ceil_int. apply Forall_map.
  eapply Forall_impl; [| exact H]. intros v Hv. now apply Zceil_within.
Qed.

(** X10: what rounding up costs, for a solver value within the bounds
    [0 <= n <= cap] of the program and a cap small enough for the int64
    sum of line 199 not to wrap.  The cast is exact; the total number of
    strands after the per-tendon ceiling is at least the solver's
    objective and exceeds it by less than one strand per tendon; it is at
    most the cap on every tendon; and a solution that is already integral
    is returned unchanged. *)
Theorem rounding_overhead (cap : Z) (n : list R) :
  n <> [] -> within_bounds cap n ->
  (Z.of_nat (List.length n) * cap <= INT64_MAX)%Z ->
  np_ceil_astype_int n = np_ceil_int n /\
  objective n <= IZR (np_sum_int (np_ceil_astype_int n))
    < objective n + INR (List.length n) /\
  (0 <= np_sum_int (np_ceil_astype_int n) <= Z.of_nat (List.length n) * cap)%Z /\
  (forall k : list Z,
     Forall (fun z => (0 <= z <= cap)%Z) k -> np_ceil_astype_int (map IZR k) = k).
Proof.
  intros Hne Hb Hsum.
  assert (Hcap : (0 <= cap <= INT64_MAX)%Z).
  { destruct n as [| v n']; [contradiction |].
    inversion Hb as [| ? ? [Hv0 Hv1] _]; subst.
    assert (Hc : (0 <= cap)%Z) by (apply le_IZR; lra).
    split; [exact Hc |].
    cbn [List.length] in Hsum. rewrite Nat2Z.inj_succ in Hsum. nia. }
  assert (Hfit : Forall fits_int64 n)
    by (apply (within_bounds_fits_int64 cap); [lia | exact Hb]).
  rewrite (ceil_cast_exact n Hfit).
  destruct (sum_ceil_bounds n) as [Hlo Hhi].
  split; [reflexivity |].
  split; [split; [exact Hlo | now apply Hhi] |].
  split.
  - pose proof (np_sum_int_bounds _ _ (ceil_within_bounds cap n Hb)) as Hs.
    now rewrite np_ceil_int_length in Hs.
  - intros k Hk.
    assert (Hfk : Forall fits_int64 (map IZR k)).
    { apply (within_bounds_fits_int64 cap); [lia |].
      unfold within_bounds. apply Forall_map.
      eapply Forall_impl; [| exact Hk]. intros z [Hz0 Hz1].
      split; now apply IZR_le. }
    rewrite (ceil_cast_exact _ Hfk).
    unfold np_ceil_int. rewrite map_map.
    clear Hk Hfk. induction k as [| z k IH]; simpl; [reflexivity |].
    now rewrite Zceil_IZR, IH.
Qed.

Lemma rounding_overhead_witness :
  np_ceil_astype_int [1 / 2; 3 / 2] = np_ceil_int [1 / 2; 3 / 2] /\
  objective [1 / 2; 3 / 2] <= IZR (np_sum_int (np_ceil_astype_int [1 / 2; 3 / 2]))
    < objective [1 / 2; 3 / 2] + INR (List.length [1 / 2; 3 / 2]) /\
  (0 <= np_sum_int (np_ceil_astype_int [(1 / 2)%R; (3 / 2)%R])
     <= Z.of_nat (List.length [(1 / 2)%R; (3 / 2)%R]) * 10)%Z /\
  (forall k : list Z,
     Forall (fun z => (0 <= z <= 10)%Z) k -> np_ceil_astype_int (map IZR k) = k).
Proof.
  apply (rounding_overhead 10 [1 / 2; 3 / 2]).
  - discriminate.
  - unfold within_bounds. repeat (apply Forall_cons; [lra |]). apply Forall_nil.
  - unfold INT64_MAX. simpl. lia.
Defined.

(** ** The mass report *)

Lemma mass_per_strand_val : Script.mass_per_strand_kg = 1413 / 100.
Proof.
  unfold Script.mass_per_strand_kg, Script.strand_area_m2, Script.tendon_length,
    Script.steel_density, Script.cord_area.
  rewrite Ly_val. replace 1e-6 with (/ 1000000) by lra. field.
Qed.

Lemma script_control_points_count :
  List.length script_control_points = (81 * 123)%nat.
Proof.
  unfold script_control_points, Grid.control_points, Grid.x_control, Grid.y_control.
  rewrite length_prod, !np_linspace_length. reflexivity.
Qed.

(** X11: the mass comparison at the end of the script, for outputs whose
    strand vector has one entry per tendon, each between 0 and the cap of
    10, and whose stress arrays have one entry per control point of the
    script's grid, as the figures of lines 227--240 need: the arrays are
    not empty and as long as the coordinates [X] and [Y] they are
    scattered against.  The full layout
    is 80 strands; the optimised total lies between 0 and 80; its mass is
    at most the full mass; and the printed steel reduction
    [(1 - mass_opt / mass_full) * 100] is [(1 - total / 80) * 100], a
    percentage between 0 and 100.  The report raises nothing and shows
    both figures. *)
Theorem report_steel_reduction (load_vector : list R) (o : outputs) :
  List.length (x_opt o) = 8%nat ->
  Forall (fun k => (0 <= k <= Script.n_cord_max)%Z) (x_opt o) ->
  List.length load_vector = List.length script_control_points ->
  List.length (induced_stress o) = List.length script_control_points ->
  List.length (final_stress o) = List.length script_control_points ->
  exists (total : Z) (mass_full mass_opt percent : R),
    Script.report load_vector o =
      ([Print MassHeader; Print (MassFull 80 mass_full);
        Print (MassOptimized total mass_opt); Print (SteelReduction percent);
        ShowLayout Script.tendon_x_positions (x_opt o);
        ShowStress load_vector (induced_stress o) (final_stress o)],
       Ok tt) /\
    List.length Script.tendon_x_positions = List.length (x_opt o) /\
    load_vector <> [] /\
    List.length script_X = List.length load_vector /\
    List.length script_Y = List.length load_vector /\
    List.length script_X = List.length (induced_stress o) /\
    List.length script_X = List.length (final_stress o) /\
    total = np_sum_int (x_opt o) /\ (0 <= total <= 80)%Z /\
    0 <= mass_opt <= mass_full /\
    percent = (1 - IZR total / 80) * 100 /\
    0 <= percent <= 100.
Proof.
  intros Hlen Hb Hlv Hli Hlf.
  assert (HX : List.length script_X = List.length script_control_points)
    by (unfold script_X; apply length_map).
  assert (HY : List.length script_Y = List.length script_control_points)
    by (unfold script_Y; apply length_map).
  pose proof (np_sum_int_bounds _ _ Hb) as Ht.
  rewrite Hlen in Ht. unfold Script.n_cord_max in Ht.
  change (Z.of_nat 8 * 10)%Z with 80%Z in Ht.
  set (t := np_sum_int (x_opt o)) in *.
  assert (Ht0 : 0 <= IZR t) by (apply IZR_le; lia).
  assert (Ht1 : IZR t <= 80) by (apply IZR_le; lia).
  exists t, (IZR 80 * Script.mass_per_strand_kg), (IZR t * Script.mass_per_strand_kg),
         ((1 - IZR t * Script.mass_per_strand_kg / (IZR 80 * Script.mass_per_strand_kg)) * 100).
  split; [| split; [| split; [| split; [congruence | split; [congruence |
    split; [congruence | split; [congruence |
    split; [reflexivity | split; [exact Ht |]]]]]]]]].
  - unfold Script.report. cbv zeta. rewrite tendon_count. fold t.
    unfold Script.n_cord_max. change (Z.of_nat 8 * 10)%Z with 80%Z. reflexivity.
  - rewrite tendon_count. symmetry. exact Hlen.
  - intros ->. rewrite script_control_points_count in Hlv. discriminate Hlv.
  - rewrite mass_per_strand_val.
    assert (Heq : IZR t * (1413 / 100) / (80 * (1413 / 100)) = IZR t / 80) by (field; lra).
    rewrite Heq. repeat split; lra.
Qed.

Lemma report_steel_reduction_witness :
  let o := mk_outputs [5; 5; 5; 5; 5; 5; 5; 5]%Z script_load_vector script_load_vector 0 in
  exists (total : Z) (mass_full mass_opt percent : R),
    Script.report script_load_vector o =
      ([Print MassHeader; Print (MassFull 80 mass_full);
        Print (MassOptimized total mass_opt); Print (SteelReduction percent);
        ShowLayout Script.tendon_x_positions (x_opt o);
        ShowStress script_load_vector (induced_stress o) (final_stress o)],
       Ok tt) /\
    List.length Script.tendon_x_positions = List.length (x_opt o) /\
    script_load_vector <> [] /\
    List.length script_X = List.length script_load_vector /\
    List.length script_Y = List.length script_load_vector /\
    List.length script_X = List.length (induced_stress o) /\
    List.length script_X = List.length (final_stress o) /\
    total = np_sum_int (x_opt o) /\ (0 <= total <= 80)%Z /\
    0 <= mass_opt <= mass_full /\
    percent = (1 - IZR total / 80) * 100 /\
    0 <= percent <= 100.
Proof.
  apply (report_steel_reduction script_load_vector
           (mk_outputs [5; 5; 5; 5; 5; 5; 5; 5]%Z script_load_vector script_load_vector 0)).
  - reflexivity.
  - unfold Script.n_cord_max. repeat constructor; simpl; lia.
  - unfold script_load_vector, Script.sigma_targets. apply length_map.
  - unfold script_load_vector, Script.sigma_targets. apply length_map.
  - unfold script_load_vector, Script.sigma_targets. apply length_map.
Defined.

(** ** The script with a solver that keeps its contract *)

Lemma recheck_after_rounding_clean
  (A : list (list R)) (s : R) (n target : list R) :
  Forall (Forall (Rle 0)) A -> 0 <= s ->
  stress_constraint A (scale n s) target ->
  exists u' : list R,
    Forall2 Rge u' target /\
    round_and_verify A target s n =
      ([Print RoundingSatisfied],
       Ok (mk_outputs (np_ceil_int n) u' (differences target u') 0)).
Proof.
  intros HA Hs (u & Hu & Hge).
  destruct (matmul_inv _ _ _ Hu) as [Hrows ->].
  rewrite scale_length in Hrows.
  set (u' := map (fun row => dot row (scale_int (np_ceil_int n) s)) A).
  assert (Hu' : outcome (matmul A (scale_int (np_ceil_int n) s)) = Ok u').
  { rewrite matmul_ok by (now rewrite scale_int_length, np_ceil_int_length). reflexivity. }
  assert (Hge' : Forall2 Rge u' target).
  { eapply Forall2_Rle_Rge_trans; [| exact Hge].
    apply matmul_mono; [exact HA | now apply ceil_scaled_dominates]. }
  exists u'. split; [exact Hge' |].
  rewrite (round_and_verify_ok A target s n u' Hu' (Forall2_length_eq _ _ _ Hge')).
  rewrite (Forall2_no_violation _ _ Hge'). reflexivity.
Qed.

(** X12: the script from top to bottom, for a solver that reports
    [cp.OPTIMAL] with a feasible point of the linear program.  The run
    raises nothing and prints that all constraints are satisfied after
    rounding; it returns the ceiling of the solver's value, whose induced
    stress reaches the target at every control point; every tendon gets
    between 0 and 10 strands; and the total is at least the solver's
    objective and less than 8 strands above it. *)
Theorem script_end_to_end (solve : lp_problem -> solver_outcome) :
  status (solve script_problem) = OPTIMAL ->
  feasible script_problem (value (solve script_problem)) ->
  exists (o : outputs) (l1 l2 l3 : line),
    Script.main solve =
      (script_preamble ++
         [Print PrecheckHeader; Print PrecheckSatisfied; Print Solving;
          SolverCall script_problem; Print Done; Print RoundingSatisfied;
          Print MassHeader; Print l1; Print l2; Print l3;
          ShowLayout Script.tendon_x_positions (x_opt o);
          ShowStress script_load_vector (induced_stress o) (final_stress o)],
       Ok o) /\
    x_opt o = np_ceil_int (value (solve script_problem)) /\
    n_violations o = 0%nat /\
    Forall2 Rge (induced_stress o) script_load_vector /\
    Forall (fun k => (0 <= k <= Script.n_cord_max)%Z) (x_opt o) /\
    objective (value (solve script_problem)) <= IZR (np_sum_int (x_opt o))
      < objective (value (solve script_problem)) + 8.
Proof.
  intros Hst (Hlen & Hc & Hb).
  change (lp_dim script_problem) with (List.length Script.tendon_x_positions) in Hlen.
  change (lp_A script_problem) with script_A in Hc.
  change (lp_s script_problem) with Script.stress_per_tendon in Hc.
  change (lp_rhs script_problem) with script_load_vector in Hc.
  change (lp_ub script_problem) with Script.n_cord_max in Hb.
  rewrite tendon_count in Hlen.
  set (n := value (solve script_problem)) in *.
  assert (Hs : 0 <= Script.stress_per_tendon) by (rewrite stress_per_tendon_val; lra).
  destruct (recheck_after_rounding_clean _ _ _ _ script_A_nonneg Hs Hc) as (u' & Hge & Hr).
  assert (Heq : String.eqb (status (solve script_problem)) OPTIMAL = true)
    by (rewrite Hst; apply String.eqb_refl).
  pose proof (core_when_solver_succeeds solve _ _ _ _ _
                script_precheck_violations Heq) as Hcore.
  fold (script_core solve) in Hcore. fold script_problem in Hcore. fold n in Hcore.
  rewrite Hr in Hcore. unfold trace, outcome in Hcore. cbn [fst snd app] in Hcore.
  set (o := mk_outputs (np_ceil_int n) u' (differences script_load_vector u') 0) in *.
  assert (Ho : outcome (script_core solve) = Ok o) by (rewrite Hcore; reflexivity).
  destruct (report_eq script_load_vector o) as (l1 & l2 & l3 & Hrep).
  exists o, l1, l2, l3.
  split; [| split; [reflexivity | split; [reflexivity | split; [exact Hge | split]]]].
  - rewrite (main_when_core_returns solve o Ho), Hcore, Hrep. reflexivity.
  - cbn [x_opt o]. unfold np_ceil_int. apply Forall_forall. intros k Hk.
    apply in_map_iff in Hk. destruct Hk as (v & <- & Hv).
    unfold within_bounds in Hb. rewrite Forall_forall in Hb.
    apply Zceil_within. now apply Hb.
  - cbn [x_opt o].
    assert (Hne : n <> []) by (intros E; rewrite E in Hlen; discriminate Hlen).
    destruct (sum_ceil_bounds n) as [Hlo Hhi]. specialize (Hhi Hne).
    rewrite Hlen in Hhi. simpl INR in Hhi. split; lra.
Qed.

Lemma script_end_to_end_witness :
  let solve := fun _ : lp_problem => mk_outcome "optimal" (repeat (99 / 10) 8) in
  exists (o : outputs) (l1 l2 l3 : line),
    Script.main solve =
      (script_preamble ++
         [Print PrecheckHeader; Print PrecheckSatisfied; Print Solving;
          SolverCall script_problem; Print Done; Print RoundingSatisfied;
          Print MassHeader; Print l1; Print l2; Print l3;
          ShowLayout Script.tendon_x_positions (x_opt o);
          ShowStress script_load_vector (induced_stress o) (final_stress o)],
       Ok o) /\
    x_opt o = np_ceil_int (value (solve script_problem)) /\
    n_violations o = 0%nat /\
    Forall2 Rge (induced_stress o) script_load_vector /\
    Forall (fun k => (0 <= k <= Script.n_cord_max)%Z) (x_opt o) /\
    objective (value (solve script_problem)) <= IZR (np_sum_int (x_opt o))
      < objective (value (solve script_problem)) + 8.
Proof.
  apply (script_end_to_end
           (fun _ : lp_problem => mk_outcome "optimal" (repeat (99 / 10) 8))).
  - reflexivity.
  - exact script_uniform_feasible.
Defined.

(** ** The centre of the script's slab *)

Lemma script_centre_is_control_point : In (4, 6) script_control_points.
Proof.
  unfold script_control_points, Grid.control_points, Grid.x_control, Grid.y_control.
  rewrite Lx_val, Ly_val. apply in_prod_iff. split.
  - destruct (linspace_mid 0.5 (8 - 0.5) 81) as [Hi Hv]; [lia | reflexivity |].
    replace 4 with ((0.5 + (8 - 0.5)) / 2) by lra.
    rewrite <- Hv. apply nth_In. now rewrite np_linspace_length.
  - destruct (linspace_mid 0.5 (12 - 0.5) 123) as [Hi Hv]; [lia | reflexivity |].
    replace 6 with ((0.5 + (12 - 0.5)) / 2) by lra.
    rewrite <- Hv. apply nth_In. now rewrite np_linspace_length.
Qed.

Lemma exp_neg_upper (t : R) : 0 <= t -> exp (- t) <= / (1 + t).
Proof.
  intros Ht. rewrite exp_Ropp. pose proof (exp_ineq1_le t) as H.
  apply Rinv_le_contravar; lra.
Qed.

Lemma midspan_factor :
  1 + Script.tendon_profile 6 Script.Ly Script.e_design / (Script.t_slab / 2) = 7 / 4.
Proof.
  unfold Script.tendon_profile. rewrite Ly_val, e_design_val, t_slab_val. field.
Qed.

Lemma midspan_target : Script.sigma_target 6 = 81 / 8.
Proof.
  unfold Script.sigma_target, Script.yc, Script.b'. rewrite sigma_max_val, Ly_val. field.
Qed.

(** The eight kernels seen from the centre line [x = 4]. *)
Lemma centre_kernels :
  map (fun xt => exp (- (Rabs (4 - xt)) ^ 2 / (2 * (3 / 4) ^ 2)))
      [1 / 2; 3 / 2; 5 / 2; 7 / 2; 9 / 2; 11 / 2; 13 / 2; 15 / 2]
  = [exp (- (98 / 9)); exp (- (50 / 9)); exp (- 2); exp (- (2 / 9));
     exp (- (2 / 9)); exp (- 2); exp (- (50 / 9)); exp (- (98 / 9))].
Proof.
  cbn [map].
  repeat match goal with
  | |- context [Rabs (4 - ?c)] =>
      let H := fresh in
      first [ assert (H : Rabs (4 - c) = 4 - c) by (apply Rabs_right; lra)
            | assert (H : Rabs (4 - c) = c - 4) by (rewrite Rabs_left1 by lra; lra) ];
      rewrite H; clear H
  end.
  repeat (f_equal; [f_equal; field |]). f_equal. f_equal. field.
Qed.

Lemma centre_kernel_sum_upper :
  fold_right Rplus 0
    (map (fun xt => exp (- (Rabs (4 - xt)) ^ 2 / (2 * (3 / 4) ^ 2)))
         [1 / 2; 3 / 2; 5 / 2; 7 / 2; 9 / 2; 11 / 2; 13 / 2; 15 / 2])
  <= 2 * (9 / 11 + 1 / 3 + 9 / 59 + 9 / 107).
Proof.
  rewrite centre_kernels. cbn [fold_right].
  pose proof (exp_neg_upper (2 / 9) ltac:(lra)) as H1.
  pose proof (exp_neg_upper 2 ltac:(lra)) as H2.
  pose proof (exp_neg_upper (50 / 9) ltac:(lra)) as H3.
  pose proof (exp_neg_upper (98 / 9) ltac:(lra)) as H4.
  replace (/ (1 + 2 / 9)) with (9 / 11) in H1 by field.
  replace (/ (1 + 2)) with (1 / 3) in H2 by field.
  replace (Ropp 2) with (-2) in H2 by lra.
  replace (/ (1 + 50 / 9)) with (9 / 59) in H3 by field.
  replace (/ (1 + 98 / 9)) with (9 / 107) in H4 by field.
  lra.
Qed.

Lemma some_violation_in_maps {T : Type} (f g : T -> R) (l : list T) (a : T) :
  In a l -> f a < g a -> np_sum_bool (less_flags (map f l) (map g l)) <> 0%nat.
Proof.
  intros Hin Hlt. induction l as [| c l IH]; [contradiction |].
  unfold np_sum_bool, less_flags in *. simpl.
  destruct (Rlt_dec (f c) (g c)) as [_ | Hn]; [simpl; lia |].
  destruct Hin as [-> | Hin]; [contradiction | now apply IH].
Qed.

(** X13: four strands per tendon are never enough on the script's slab.
    With the cap lowered to any value up to 4 and everything else as in
    the script, the induced stress at the centre of the slab stays below
    the target, so the run stops in the precheck with the "cannot be met
    even with all tendons fully activated" error and the solver is not
    called. *)
Theorem script_needs_more_than_four_strands
  (solve : lp_problem -> solver_outcome) (cap : Z) :
  (cap <= 4)%Z ->
  exists k : nat,
    k <> 0%nat /\
    core solve script_A script_load_vector Script.tendon_x_positions cap
         Script.stress_per_tendon =
      ([Print PrecheckHeader; Print (PrecheckViolated k);
        Print PrecheckInsufficient; Print PrecheckAdvice],
       Raise (RuntimeError infeasible_at_full_capacity)).
Proof.
  intros Hcap.
  set (c := IZR cap * Script.stress_per_tendon).
  set (f := fun cp : R * R =>
              dot (map (fun x_t =>
                          Script.tendon_influence_with_eccentricity
                            x_t (fst cp) (snd cp) Script.sigma_default)
                       Script.tendon_x_positions)
                  (repeat c 8)).
  assert (Hfull : outcome (induced_stress_full script_A Script.tendon_x_positions cap
                             Script.stress_per_tendon) = Ok (map f script_control_points)).
  { unfold induced_stress_full. cbv zeta.
    rewrite tendon_count, scale_int_full. fold c.
    rewrite script_matmul_uniform. reflexivity. }
  assert (Hlen : List.length (map f script_control_points) = List.length script_load_vector).
  { unfold script_load_vector, Script.sigma_targets. now rewrite !length_map. }
  pose proof (precheck_violations_ok _ _ _ _ _ _ Hfull Hlen) as Hv.
  exists (np_sum_bool (less_flags (map f script_control_points) script_load_vector)).
  assert (Hk : np_sum_bool (less_flags (map f script_control_points) script_load_vector)
               <> 0%nat).
  { unfold script_load_vector, Script.sigma_targets.
    apply (some_violation_in_maps f _ _ (4, 6) script_centre_is_control_point).
    unfold f. cbn [fst snd].
    rewrite script_row_uniform, midspan_factor, midspan_target.
    pose proof centre_kernel_sum_upper as HS.
    set (S := fold_right Rplus 0 _) in *.
    assert (HS0 : 0 <= S).
    { unfold S. rewrite centre_kernels. cbn [fold_right].
      pose proof (exp_pos (- (98 / 9))). pose proof (exp_pos (- (50 / 9))).
      pose proof (exp_pos (- 2)). pose proof (exp_pos (- (2 / 9))). lra. }
    assert (Hc : c <= 4 * (1953 / 4000)).
    { unfold c. rewrite stress_per_tendon_val.
      apply Rmult_le_compat_r; [lra | now apply IZR_le]. }
    destruct (Rle_dec 0 c) as [Hc0 | Hcn].
    - assert (S * (7 / 4) * c <= 2 * (9 / 11 + 1 / 3 + 9 / 59 + 9 / 107) * (7 / 4)
                                  * (4 * (1953 / 4000))).
      { apply Rmult_le_compat; try lra; nra. }
      lra.
    - assert (S * (7 / 4) * c <= 0) by nra. lra. }
  split; [exact Hk |].
  exact (core_when_precheck_fails solve _ _ _ _ _ _ Hv Hk).
Qed.

Lemma script_needs_more_than_four_strands_witness :
  let solve := fun _ : lp_problem => mk_outcome "optimal" [] in
  exists k : nat,
    k <> 0%nat /\
    core solve script_A script_load_vector Script.tendon_x_positions 1
         Script.stress_per_tendon =
      ([Print PrecheckHeader; Print (PrecheckViolated k);
        Print PrecheckInsufficient; Print PrecheckAdvice],
       Raise (RuntimeError infeasible_at_full_capacity)).
Proof.
  apply (script_needs_more_than_four_strands
           (fun _ : lp_problem => mk_outcome "optimal" []) 1).
  lia.
Defined.

(** ** How few strands the script's program can use *)

Lemma Forall2_maps_In {T : Type} (P : R -> R -> Prop) (f g : T -> R) (l : list T) (a : T) :
  Forall2 P (map f l) (map g l) -> In a l -> P (f a) (g a).
Proof.
  induction l as [| c l IH]; intros H Hin; [contradiction |].
  simpl in H. inversion H; subst.
  destruct Hin as [-> | Hin]; [assumption | now apply IH].
Qed.

Lemma dot_upper (m : R) (row v : list R) :
  0 <= m -> Forall (fun a => 0 <= a <= m) row -> Forall (Rle 0) v ->
  dot row v <= m * fold_right Rplus 0 v.
Proof.
  intros Hm Hrow. revert v.
  assert (Hsum : forall v, Forall (Rle 0) v -> 0 <= fold_right Rplus 0 v).
  { induction 1; simpl; lra. }
  induction Hrow as [| a row Ha _ IH]; intros v Hv.
  - unfold dot. simpl. specialize (Hsum v Hv). nra.
  - destruct Hv as [| x v Hx Hv].
    + unfold dot. simpl. lra.
    + specialize (IH v Hv). unfold dot in *. simpl. nra.
Qed.

Lemma sum_scale (n : list R) (s : R) :
  fold_right Rplus 0 (scale n s) = s * objective n.
Proof.
  unfold scale, objective. induction n as [| v n IH]; simpl; [ring |].
  rewrite IH. ring.
Qed.

Lemma centre_row_entries :
  Forall (fun a => 0 <= a <= 63 / 44)
    (map (fun x_t =>
            Script.tendon_influence_with_eccentricity x_t 4 6 Script.sigma_default)
         Script.tendon_x_positions).
Proof.
  assert (Heq : map (fun x_t =>
            Script.tendon_influence_with_eccentricity x_t 4 6 Script.sigma_default)
         Script.tendon_x_positions =
         map (fun k => k * (7 / 4))
           [exp (- (98 / 9)); exp (- (50 / 9)); exp (- 2); exp (- (2 / 9));
            exp (- (2 / 9)); exp (- 2); exp (- (50 / 9)); exp (- (98 / 9))]).
  { rewrite <- centre_kernels, map_map, tendon_x_positions_val.
    apply map_ext. intros xt.
    unfold Script.tendon_influence_with_eccentricity. cbv zeta.
    now rewrite midspan_factor, sigma_default_val. }
  rewrite Heq.
  pose proof (exp_neg_upper (2 / 9) ltac:(lra)) as H1.
  replace (/ (1 + 2 / 9)) with (9 / 11) in H1 by field.
  assert (Hk : forall t, 2 / 9 <= t -> 0 <= exp (- t) * (7 / 4) <= 63 / 44).
  { intros t Ht. pose proof (exp_pos (- t)) as Hp.
    assert (exp (- t) <= exp (- (2 / 9))) by (apply exp_le_mono; lra).
    split; lra. }
  replace (-2) with (Ropp 2) by lra.
  cbn [map]. repeat (apply Forall_cons; [apply Hk; lra |]). apply Forall_nil.
Qed.

(** X14: the linear program of the script cannot get by with few strands.
    The constraint at the centre of the slab alone forces every feasible
    point to use at least 14 strands in total; so the optimal value lies
    between 14 and 79.2 strands. *)
Theorem script_lp_value_bounds :
  (forall n : list R, feasible script_problem n -> 14 <= objective n) /\
  (forall v : R, optimal_value script_problem v -> 14 <= v <= 396 / 5).
Proof.
  assert (Hlow : forall n : list R, feasible script_problem n -> 14 <= objective n).
  { intros n (Hlen & (u & Hu & Hge) & Hb).
    change (lp_A script_problem) with script_A in Hu.
    change (lp_s script_problem) with Script.stress_per_tendon in Hu.
    change (lp_rhs script_problem) with script_load_vector in Hge.
    change (lp_ub script_problem) with Script.n_cord_max in Hb.
    apply matmul_inv in Hu. destruct Hu as [_ ->].
    unfold script_A, Script.influence_matrix in Hge. rewrite map_map in Hge.
    unfold script_load_vector, Script.sigma_targets in Hge.
    pose proof (Forall2_maps_In _ _ _ _ (4, 6) Hge script_centre_is_control_point) as Hc.
    cbn [fst snd] in Hc. rewrite midspan_target in Hc.
    assert (Hv : Forall (Rle 0) (scale n Script.stress_per_tendon)).
    { unfold scale. apply Forall_forall. intros x Hx.
      apply in_map_iff in Hx. destruct Hx as (v & <- & Hin).
      unfold within_bounds in Hb. rewrite Forall_forall in Hb. specialize (Hb v Hin).
      rewrite stress_per_tendon_val. cbv beta in Hb.
      destruct Hb as [Hb0 _]. clear - Hb0. lra. }
    pose proof (dot_upper (63 / 44) _ _ ltac:(lra) centre_row_entries Hv) as Hd.
    rewrite sum_scale in Hd. set (d := dot _ _) in *.
    rewrite stress_per_tendon_val in Hd. lra. }
  split; [exact Hlow |].
  intros v [Hlb Hglb]. split.
  - apply Hglb. exact Hlow.
  - specialize (Hlb _ script_uniform_feasible).
    rewrite objective_repeat in Hlb. simpl INR in Hlb. lra.
Qed.

(** ** The tendon layout for other slab widths *)

(** X15: the tendon positions [np.arange(0.5, Lx - 0.5 + 1e-6, 1.0)] for a
    slab of integer width [k >= 1].  There are exactly [k] tendons, at
    [0.5, 1.5, ..., k - 0.5], all strictly inside the slab; the [1e-6]
    added to the stop is what keeps the last one: without it the layout
    has only [k - 1] tendons. *)
Theorem tendon_layout_for_width (k : Z) :
  (1 <= k)%Z ->
  List.length (np_arange 0.5 (IZR k - 0.5 + 1e-6) 1.0) = Z.to_nat k /\
  (forall i : nat, (i < Z.to_nat k)%nat ->
     nth i (np_arange 0.5 (IZR k - 0.5 + 1e-6) 1.0) 0 = 1 / 2 + INR i) /\
  (forall t : R, In t (np_arange 0.5 (IZR k - 0.5 + 1e-6) 1.0) -> 0 < t < IZR k) /\
  List.length (np_arange 0.5 (IZR k - 0.5) 1.0) = Z.to_nat (k - 1).
Proof.
  intros Hk.
  assert (Hc : Zceil ((IZR k - 0.5 + 1e-6 - 0.5) / 1.0) = k)
    by (apply Zceil_eq; lra).
  assert (Hc' : Zceil ((IZR k - 0.5 - 0.5) / 1.0) = (k - 1)%Z)
    by (apply Zceil_eq; rewrite minus_IZR; lra).
  unfold np_arange. rewrite Hc, Hc'.
  split; [now rewrite length_map, length_seq |].
  split; [| split; [| now rewrite length_map, length_seq]].
  - intros i Hi.
    set (f := fun j : nat => 0.5 + INR j * 1.0).
    rewrite (nth_indep (map f (seq 0 (Z.to_nat k))) 0 (f 0%nat))
      by (now rewrite length_map, length_seq).
    rewrite map_nth, seq_nth by exact Hi. unfold f. simpl Nat.add. lra.
  - intros t Ht. apply in_map_iff in Ht. destruct Ht as (i & <- & Hi).
    apply in_seq in Hi.
    assert (Hi0 : 0 <= INR i) by apply pos_INR.
    assert (Hi1 : INR i <= IZR k - 1).
    { rewrite INR_IZR_INZ, <- minus_IZR. apply IZR_le. lia. }
    split; lra.
Qed.

Lemma tendon_layout_for_width_witness :
  List.length (np_arange 0.5 (IZR 8 - 0.5 + 1e-6) 1.0) = Z.to_nat 8 /\
  (forall i : nat, (i < Z.to_nat 8)%nat ->
     nth i (np_arange 0.5 (IZR 8 - 0.5 + 1e-6) 1.0) 0 = 1 / 2 + INR i) /\
  (forall t : R, In t (np_arange 0.5 (IZR 8 - 0.5 + 1e-6) 1.0) -> 0 < t < IZR 8) /\
  List.length (np_arange 0.5 (IZR 8 - 0.5) 1.0) = Z.to_nat (8 - 1).
Proof.
  apply (tendon_layout_for_width 8). lia.
Defined.

(** ** The exceptions a run can end in *)

Lemma influence_matrix_rows (cps : list (R * R)) :
  rows_have_length (Script.influence_matrix cps) (List.length Script.tendon_x_positions).
Proof.
  unfold rows_have_length, Script.influence_matrix.
  apply Forall_forall. intros row Hrow.
  apply in_map_iff in Hrow. destruct Hrow as (cp & <- & _).
  now rewrite length_map.
Qed.

(** X16: the arrays the script builds always fit together.  For any
    non-empty list of control points on the slab, any cap that fits in an
    int64 and
    any solver that returns one value per tendon, each fitting in an int64,
    when it reports [cp.OPTIMAL], the core run on the influence matrix and
    the targets of those control points either returns its outputs or ends
    in one of the two exceptions the script raises itself; it never fails
    on a shape mismatch. *)
Theorem core_raises_only_its_own_errors
  (solve : lp_problem -> solver_outcome) (cps : list (R * R)) (cap : Z) :
  let A := Script.influence_matrix cps in
  let load_vector := Script.sigma_targets cps in
  let lp := problem A load_vector Script.tendon_x_positions cap Script.stress_per_tendon in
  let run := core solve A load_vector Script.tendon_x_positions cap
                  Script.stress_per_tendon in
  cps <> [] ->
  Forall (fun cp => 0 <= fst cp <= Script.Lx /\ 0 <= snd cp <= Script.Ly) cps ->
  (INT64_MIN <= cap <= INT64_MAX)%Z ->
  (status (solve lp) = OPTIMAL ->
   List.length (value (solve lp)) = List.length Script.tendon_x_positions /\
   Forall fits_int64 (value (solve lp))) ->
  (A <> [] /\ List.length load_vector = List.length A /\
   rows_have_length A (List.length Script.tendon_x_positions)) /\
  ((exists o : outputs,
      outcome run = Ok o /\ x_opt o = np_ceil_astype_int (value (solve lp))) \/
   outcome run = Raise (RuntimeError infeasible_at_full_capacity) \/
   outcome run = Raise (ValueError (optimization_failed (status (solve lp))))).
Proof.
  intros A load_vector lp run Hcps _ Hcap Hval.
  pose proof (influence_matrix_rows cps) as Hrows. fold A in Hrows.
  assert (HlenA : List.length A = List.length load_vector).
  { unfold A, load_vector, Script.influence_matrix, Script.sigma_targets.
    now rewrite !length_map. }
  split.
  { split; [| split; [now symmetry | exact Hrows]].
    unfold A, Script.influence_matrix. destruct cps; [contradiction | discriminate]. }
  set (full := scale_int (np_full (List.length Script.tendon_x_positions) cap)
                         Script.stress_per_tendon).
  assert (Hfull : outcome (induced_stress_full A Script.tendon_x_positions cap
                             Script.stress_per_tendon)
                  = Ok (map (fun row => dot row full) A)).
  { unfold induced_stress_full. cbv zeta. fold full.
    rewrite matmul_ok; [reflexivity |].
    unfold full, np_full. now rewrite scale_int_length, repeat_length. }
  assert (Hlen : List.length (map (fun row => dot row full) A) = List.length load_vector)
    by (now rewrite length_map).
  pose proof (precheck_violations_ok _ _ _ _ _ _ Hfull Hlen) as Hv.
  destruct (np_sum_bool (less_flags (map (fun row => dot row full) A) load_vector))
    as [| k] eqn:Ek.
  2:{ right. left. unfold run.
      rewrite (core_when_precheck_fails solve _ _ _ _ _ _ Hv) by discriminate.
      reflexivity. }
  destruct (String.eqb (status (solve lp)) OPTIMAL) eqn:Est.
  2:{ right. right. unfold run, lp in *.
      rewrite (core_when_solver_fails solve _ _ _ _ _ Hv Est). reflexivity. }
  left. unfold run.
  rewrite (core_when_solver_succeeds solve _ _ _ _ _ Hv Est). fold lp.
  apply String.eqb_eq in Est. destruct (Hval Est) as [Hvlen Hfit].
  rewrite (ceil_cast_exact _ Hfit).
  set (v := scale_int (np_ceil_int (value (solve lp))) Script.stress_per_tendon).
  assert (Hu : outcome (matmul A v) = Ok (map (fun row => dot row v) A)).
  { rewrite matmul_ok; [reflexivity |].
    unfold v. now rewrite scale_int_length, np_ceil_int_length, Hvlen. }
  rewrite (round_and_verify_ok A load_vector Script.stress_per_tendon _ _ Hu)
    by (now rewrite length_map).
  eexists. split; reflexivity.
Qed.

Lemma core_raises_only_its_own_errors_witness :
  let solve := fun _ : lp_problem => mk_outcome "infeasible" [] in
  let cps := [(4, 6)] in
  let A := Script.influence_matrix cps in
  let load_vector := Script.sigma_targets cps in
  let lp := problem A load_vector Script.tendon_x_positions 10 Script.stress_per_tendon in
  let run := core solve A load_vector Script.tendon_x_positions 10
                  Script.stress_per_tendon in
  (A <> [] /\ List.length load_vector = List.length A /\
   rows_have_length A (List.length Script.tendon_x_positions)) /\
  ((exists o : outputs,
      outcome run = Ok o /\ x_opt o = np_ceil_astype_int (value (solve lp))) \/
   outcome run = Raise (RuntimeError infeasible_at_full_capacity) \/
   outcome run = Raise (ValueError (optimization_failed (status (solve lp))))).
Proof.
  apply (core_raises_only_its_own_errors
           (fun _ : lp_problem => mk_outcome "infeasible" []) [(4, 6)] 10).
  - discriminate.
  - apply Forall_cons; [| apply Forall_nil]. cbn [fst snd].
    rewrite Lx_val, Ly_val. lra.
  - unfold INT64_MIN, INT64_MAX. lia.
  - discriminate.
Defined.
